(** * The composite demonstration (composite.cpp), embedded in Rocq

    The program builds a tree of [Graphic] objects on the C++ heap.  A
    [CompoundGraphic] owns its children through a
    [std::list<std::unique_ptr<Graphic>>]; the caller names a child by the
    raw pointer it kept from before the [add].  Since [remove] compares raw
    pointers and since nothing stops a caller from handing a container to
    itself, the embedding keeps the store explicit: objects live in a finite
    map from addresses to objects, and a container holds the addresses of
    its children.  Every member function becomes a computation over the
    program state (the store and what was written to [std::cout]). *)

From Stdlib Require Import ZArith String Ascii.
From stdpp Require Import strings gmap pretty.

Local Open Scope Z_scope.

(** ** Data model *)

(** Addresses of heap objects: what a [Graphic*] holds. *)
Abbreviation ptr := positive.

(** The three concrete classes.  [Dot] and [Circle] derive from [Leaf],
    [CompoundGraphic] from [Compound]; an [int] field is an integer (no
    member function does arithmetic on one, so no wrap-around arises). *)
Inductive Graphic : Type :=
  | Dot (x y : Z)
  | Circle (x y radius : Z)
  | CompoundGraphic (children : list ptr).

(** [std::variant<Leaf*, Compound*>]. *)
Inductive variant_Leaf_Compound : Type :=
  | holds_Leaf (p : ptr)
  | holds_Compound (p : ptr).

(** The program state. *)
Record state : Type := mkState {
  heap : gmap positive Graphic;
  cout : string
}.

Definition set_heap (h : gmap positive Graphic) (s : state) : state :=
  mkState h (cout s).

Definition put (text : string) (s : state) : state :=
  mkState (heap s) (cout s +:+ text).

(** Conditions the specification expects to be reported to a caller.  The
    source has no [throw] and no error code; [never_Raised] below shows that
    no member function produces one. *)
Inductive condition : Type := TypeMismatch | CycleDetected.

(** What a member call through a pointer comes to. *)
Inductive outcome (A : Type) : Type :=
  | Returned (a : A) (s : state)   (* normal return, with the state after *)
  | Raised (c : condition)         (* a failure reported to the caller *)
  | NoMember                       (* the receiver's class declares no such
                                      member: the call is ill-typed *)
  | Dangling                       (* the pointer designates no live object *)
  | OutOfFuel.                     (* the recursion was cut off *)
Arguments Returned {A} a s.
Arguments Raised {A} c.
Arguments NoMember {A}.
Arguments Dangling {A}.
Arguments OutOfFuel {A}.

Definition M (A : Type) : Type := state → outcome A.

Definition ret {A} (a : A) : M A := fun s => Returned a s.

Definition bind {A B} (c : M A) (k : A → M B) : M B := fun s =>
  match c s with
  | Returned a s' => k a s'
  | Raised e => Raised e
  | NoMember => NoMember
  | Dangling => Dangling
  | OutOfFuel => OutOfFuel
  end.

Notation "x <- c ;; k" := (bind c (fun x => k))
  (at level 100, c at next level, right associativity).
Notation "c ;;; k" := (bind c (fun _ => k))
  (at level 100, right associativity).

(** [for (auto& c : l) body(c);] *)
Fixpoint for_each {A} (body : A → M unit) (l : list A) : M unit :=
  match l with
  | [] => ret tt
  | c :: l' => body c ;;; for_each body l'
  end.

(** Dereferencing a pointer. *)
Definition deref (p : ptr) : M Graphic := fun s =>
  match heap s !! p with
  | Some o => Returned o s
  | None => Dangling
  end.

Definition store (p : ptr) (o : Graphic) : M unit := fun s =>
  Returned tt (set_heap (<[p := o]> (heap s)) s).

Definition free (p : ptr) : M unit := fun s =>
  Returned tt (set_heap (delete p (heap s)) s).

Definition print (text : string) : M unit := fun s =>
  Returned tt (put text s).

Definition nl : string := String "010"%char EmptyString.

(** [std::cout << n] for an [int]. *)
Definition show (n : Z) : string := pretty n.

(** ** Member functions *)

(** [Leaf::Type] and [Compound::Type]: both return [this], which selects
    the alternative of the variant by the static type of [this]. *)
Definition Type_ (this : ptr) : M variant_Leaf_Compound :=
  o <- deref this ;;
  match o with
  | Dot _ _ | Circle _ _ _ => ret (holds_Leaf this)
  | CompoundGraphic _ => ret (holds_Compound this)
  end.

(** [Dot::move], inherited by [Circle]; [CompoundGraphic::move]. *)
Fixpoint move (fuel : nat) (this : ptr) (x y : Z) : M unit :=
  match fuel with
  | O => fun _ => OutOfFuel
  | S fuel' =>
      o <- deref this ;;
      match o with
      | Dot _ _ => store this (Dot x y)
      | Circle _ _ radius => store this (Circle x y radius)
      | CompoundGraphic children =>
          for_each (fun c => move fuel' c x y) children
      end
  end.

(** [Dot::draw], [Circle::draw], [CompoundGraphic::draw]. *)
Fixpoint draw (fuel : nat) (this : ptr) : M unit :=
  match fuel with
  | O => fun _ => OutOfFuel
  | S fuel' =>
      o <- deref this ;;
      match o with
      | Dot x y =>
          print ("Drawing Dot, x: " +:+ show x +:+ ", y: " +:+ show y +:+ nl)
      | Circle x y _ =>
          print ("Drawing Circle, x: " +:+ show x +:+ ", y: " +:+ show y +:+ nl)
      | CompoundGraphic children => for_each (draw fuel') children
      end
  end.

(** [delete p]: the virtual destructor.  Destroying a [Compound] destroys
    its [children] member, and each [unique_ptr] in it deletes its object in
    turn; the storage is released last. *)
Fixpoint destroy (fuel : nat) (p : ptr) : M unit :=
  match fuel with
  | O => fun _ => OutOfFuel
  | S fuel' =>
      o <- deref p ;;
      match o with
      | Dot _ _ | Circle _ _ _ => free p
      | CompoundGraphic children =>
          for_each (destroy fuel') children ;;; free p
      end
  end.

(** [CompoundGraphic::add]: [children.push_back(std::move(child))]. *)
Definition add (this child : ptr) : M unit :=
  o <- deref this ;;
  match o with
  | CompoundGraphic children =>
      store this (CompoundGraphic (children ++ [child]))
  | Dot _ _ | Circle _ _ _ => fun _ => NoMember
  end.

(** The loop of [CompoundGraphic::remove]: the position of the first
    element whose [get()] equals [child], split around it. *)
Fixpoint find_child (child : ptr) (children : list ptr)
  : option (list ptr * list ptr) :=
  match children with
  | [] => None
  | c :: rest =>
      if decide (c = child) then Some ([], rest)
      else '(before, after) ← find_child child rest; Some (c :: before, after)
  end.

(** [CompoundGraphic::remove]: [children.erase(it)] unlinks the element and
    destroys its [unique_ptr], which deletes the child. *)
Definition remove (fuel : nat) (this child : ptr) : M unit :=
  o <- deref this ;;
  match o with
  | CompoundGraphic children =>
      match find_child child children with
      | Some (before, after) =>
          store this (CompoundGraphic (before ++ after)) ;;;
          destroy fuel child
      | None => ret tt
      end
  | Dot _ _ | Circle _ _ _ => fun _ => NoMember
  end.




(** [std::make_unique<T>(...)], and the storage of a local object: a fresh
    address holding the new object. *)
Definition new_ (o : Graphic) : M ptr := fun s =>
  let p := fresh (dom (heap s)) in
  Returned p (set_heap (<[p := o]> (heap s)) s).

(** [main].  [raw_d] is the address [d.get()] returned before [d] was moved
    into [root]; the destructor of [root] runs when [main] returns. *)
Definition main (fuel : nat) : M Z :=
  root <- new_ (CompoundGraphic []) ;;
  d <- new_ (Dot 10 20) ;;
  let raw_d := d in
  add root d ;;;
  c <- new_ (Circle 5 5 3) ;;
  add root c ;;;
  print ("Before draw:" +:+ nl) ;;;
  draw fuel root ;;;
  remove fuel root raw_d ;;;
  print ("After removal:" +:+ nl) ;;;
  draw fuel root ;;;
  destroy fuel root ;;;
  ret 0.

(** The state in which a program starts. *)
Definition boot : state := mkState ∅ "".

(** The calls a client can make on a tree, for statements about "any
    operation". *)
Inductive operation : Type :=
  | call_add (this child : ptr)
  | call_remove (this child : ptr)
  | call_move (this : ptr) (x y : Z)
  | call_draw (this : ptr).

Definition perform (fuel : nat) (op : operation) : M unit :=
  match op with
  | call_add this child => add this child
  | call_remove this child => remove fuel this child
  | call_move this x y => move fuel this x y
  | call_draw this => draw fuel this
  end.

(** ** The shape of the store *)

(** The position a leaf reports when drawn; a container has none. *)
Definition position (o : Graphic) : option (Z * Z) :=
  match o with
  | Dot x y | Circle x y _ => Some (x, y)
  | CompoundGraphic _ => None
  end.

(** The child sequence of an object; a leaf has none. *)
Definition links (o : Graphic) : option (list ptr) :=
  match o with
  | CompoundGraphic children => Some children
  | Dot _ _ | Circle _ _ _ => None
  end.

(** What [move x y] leaves in place of an object. *)
Definition place (x y : Z) (o : Graphic) : Graphic :=
  match o with
  | Dot _ _ => Dot x y
  | Circle _ _ radius => Circle x y radius
  | CompoundGraphic children => CompoundGraphic children
  end.

(** [n] is held directly by the container at [C]. *)
Definition child_of (h : gmap positive Graphic) (C n : ptr) : Prop :=
  ∃ children, h !! C = Some (CompoundGraphic children) ∧ n ∈ children.

(** [n] is under [C], at any depth. *)
Inductive under (h : gmap positive Graphic) (C : ptr) : ptr → Prop :=
  | under_child n : child_of h C n → under h C n
  | under_deeper m n : child_of h C m → under h m n → under h C n.

(** The objects a traversal from [p] visits, in visiting order, when it
    comes back within [fuel] nested calls and meets no dangling pointer. *)
Fixpoint nodes (fuel : nat) (h : gmap positive Graphic) (p : ptr)
  : option (list ptr) :=
  match fuel with
  | O => None
  | S fuel' =>
      match h !! p with
      | None => None
      | Some (CompoundGraphic children) =>
          ls ← mapM (nodes fuel' h) children; Some (p :: mjoin ls)
      | Some _ => Some [p]
      end
  end.

(** Traversals from [p] are bounded by [fuel]. *)
Definition bounded (fuel : nat) (h : gmap positive Graphic) (p : ptr) : Prop :=
  is_Some (nodes fuel h p).

(** The structure at [p] is a tree: bounded, and no object is met twice
    (each one has a single owning [unique_ptr]). *)
Definition tree_at (fuel : nat) (h : gmap positive Graphic) (p : ptr) : Prop :=
  ∃ l, nodes fuel h p = Some l ∧ NoDup l.

Definition place_all (x y : Z) (l : list ptr) (h : gmap positive Graphic)
  : gmap positive Graphic :=
  foldl (fun h q => alter (place x y) q h) h l.

Definition delete_all (l : list ptr) (h : gmap positive Graphic)
  : gmap positive Graphic :=
  foldl (fun h q => delete q h) h l.

(** What drawing a single object writes by itself: a leaf writes its line,
    a container writes nothing of its own. *)
Definition line (o : Graphic) : string :=
  match o with
  | Dot x y => "Drawing Dot, x: " +:+ show x +:+ ", y: " +:+ show y +:+ nl
  | Circle x y _ => "Drawing Circle, x: " +:+ show x +:+ ", y: " +:+ show y +:+ nl
  | CompoundGraphic _ => ""
  end.

(** The lines of the objects of a listing, one after the other. *)
Fixpoint rendering (h : gmap positive Graphic) (l : list ptr) : string :=
  match l with
  | [] => ""
  | q :: l' => from_option line "" (h !! q) +:+ rendering h l'
  end.

(** The two kinds of node: every class derives from [Leaf] or from
    [Compound]. *)
Definition is_leaf (o : Graphic) : bool :=
  match o with
  | Dot _ _ | Circle _ _ _ => true
  | CompoundGraphic _ => false
  end.

(** Every object that is live after was live before, with the same kind. *)
Definition keeps (s s' : state) : Prop :=
  ∀ p o', heap s' !! p = Some o' →
    ∃ o, heap s !! p = Some o ∧ is_leaf o = is_leaf o'.

(** Every object that was live before is live after. *)
Definition stays (s s' : state) : Prop :=
  ∀ p o, heap s !! p = Some o → is_Some (heap s' !! p).

(** The calls that destroy nothing. *)
Definition destroys_nothing (op : operation) : Prop :=
  match op with
  | call_remove _ _ => False
  | call_add _ _ | call_move _ _ _ | call_draw _ => True
  end.

(** A computation that reports no condition, whatever the state. *)
Definition quiet {A} (c : M A) : Prop := ∀ s e, c s ≠ Raised e.

(** The position the object at [p] reports, when [p] is a live leaf. *)
Definition reported (s : state) (p : ptr) : option (Z * Z) :=
  heap s !! p ≫= position.

(** The strings written one after the other. *)
Definition joined (outs : list string) : string :=
  foldr String.append "" outs.

(** ** The scenarios of the specification *)

(** Scenario A, up to the first [draw]: the first five statements of
    [main].  Returns the root and the address kept for the dot. *)
Definition scenario_A : M (ptr * ptr) :=
  root <- new_ (CompoundGraphic []) ;;
  d <- new_ (Dot 10 20) ;;
  let raw_d := d in
  add root d ;;;
  c <- new_ (Circle 5 5 3) ;;
  add root c ;;;
  ret (root, raw_d).

(** Scenario B: a root holding a sub-container holding one leaf.  Returns
    the root and the address of the leaf. *)
Definition scenario_B (leaf : Graphic) : M (ptr * ptr) :=
  root <- new_ (CompoundGraphic []) ;;
  sub <- new_ (CompoundGraphic []) ;;
  n <- new_ leaf ;;
  add sub n ;;;
  add root sub ;;;
  ret (root, n).

(** A container holding itself: [auto c = std::make_unique<CompoundGraphic>();
    auto raw = c.get(); raw->add(std::move(c));]. *)
Definition self_owned : M ptr :=
  c <- new_ (CompoundGraphic []) ;;
  let raw := c in
  add raw c ;;;
  ret raw.

(** ** Traversal listings *)

Section listings.
Context (h : gmap positive Graphic).

Lemma nodes_compound fuel p children :
  h !! p = Some (CompoundGraphic children) →
  nodes (S fuel) h p = ls ← mapM (nodes fuel h) children; Some (p :: mjoin ls).
Proof. intros Hp. simpl. by rewrite Hp. Qed.

Lemma nodes_cons fuel p l :
  nodes fuel h p = Some l → ∃ l', l = p :: l'.
Proof.
  destruct fuel as [|fuel]; simpl; [done|].
  destruct (h !! p) as [[x y|x y r|cs]|]; try done.
  - intros [= <-]. by eexists.
  - intros [= <-]. by eexists.
  - destruct (mapM _ cs) as [ls|]; simpl; [|done].
    intros [= <-]. by eexists.
Qed.

Lemma nodes_self fuel p l : nodes fuel h p = Some l → p ∈ l.
Proof. intros [l' ->]%nodes_cons. left. Qed.

Lemma nodes_live fuel p l : nodes fuel h p = Some l → is_Some (h !! p).
Proof.
  destruct fuel as [|fuel]; simpl; [done|].
  destruct (h !! p); [eauto|done].
Qed.

Lemma nodes_mono fuel p l :
  nodes fuel h p = Some l → nodes (S fuel) h p = Some l.
Proof.
  revert p l. induction fuel as [|fuel IH]; intros p l; [done|].
  intros Hn. change (nodes (S fuel) h p) with
    (match h !! p with
     | None => None
     | Some (CompoundGraphic children) =>
         ls ← mapM (nodes fuel h) children; Some (p :: mjoin ls)
     | Some _ => Some [p]
     end) in Hn.
  change (nodes (S (S fuel)) h p) with
    (match h !! p with
     | None => None
     | Some (CompoundGraphic children) =>
         ls ← mapM (nodes (S fuel) h) children; Some (p :: mjoin ls)
     | Some _ => Some [p]
     end).
  destruct (h !! p) as [[x y|x y r|cs]|]; try done.
  destruct (mapM (nodes fuel h) cs) as [ls|] eqn:Hls; simpl in Hn; [|done].
  assert (mapM (nodes (S fuel) h) cs = Some ls) as ->; [|done].
  apply mapM_Some. apply mapM_Some in Hls.
  eapply Forall2_impl; [exact Hls|]. intros c lc. apply IH.
Qed.

Lemma nodes_mono_le fuel fuel' p l :
  (fuel ≤ fuel')%nat → nodes fuel h p = Some l → nodes fuel' h p = Some l.
Proof. induction 1; [done|]. intros. by apply nodes_mono, IHle. Qed.

(** What a bounded container's listing is made of. *)
Lemma nodes_inv fuel p children l :
  h !! p = Some (CompoundGraphic children) →
  nodes (S fuel) h p = Some l →
  ∃ ls, Forall2 (fun c lc => nodes fuel h c = Some lc) children ls
        ∧ l = p :: mjoin ls.
Proof.
  intros Hp. rewrite (nodes_compound _ _ _ Hp).
  destruct (mapM _ children) as [ls|] eqn:Hls; simpl; [|done].
  intros [= <-]. exists ls. split; [by apply mapM_Some|done].
Qed.

Lemma nodes_leaf fuel p o l :
  h !! p = Some o → links o = None → nodes fuel h p = Some l → l = [p].
Proof.
  intros Hp Ho. destruct fuel as [|fuel]; simpl; [done|]. rewrite Hp.
  destruct o; [by intros [= <-]..|done].
Qed.

Lemma under_inv C q :
  under h C q →
  ∃ children, h !! C = Some (CompoundGraphic children)
    ∧ ∃ c, c ∈ children ∧ (q = c ∨ under h c q).
Proof.
  intros [n (cs & HC & Hn)|m n (cs & HC & Hm) Hu]; exists cs; eauto.
Qed.

Lemma listing_join fuel children ls q :
  Forall2 (fun c lc => nodes fuel h c = Some lc) children ls →
  q ∈ mjoin ls ↔
  ∃ c lc, c ∈ children ∧ nodes fuel h c = Some lc ∧ q ∈ lc.
Proof.
  induction 1 as [|c lc cs ls Hc Hcs IH]; simpl.
  - split; [by intros ?%elem_of_nil|]. by intros (c & lc & ?%elem_of_nil & _).
  - rewrite elem_of_app, IH. split.
    + intros [Hq|(c' & lc' & Hc' & Hn & Hq)].
      * exists c, lc. split; [left|done].
      * exists c', lc'. split; [by right|done].
    + intros (c' & lc' & [->|Hc']%elem_of_cons & Hn & Hq).
      * left. congruence.
      * right. eauto.
Qed.

Lemma listing_child fuel children ls c :
  Forall2 (fun c lc => nodes fuel h c = Some lc) children ls →
  c ∈ children → ∃ lc, nodes fuel h c = Some lc ∧ lc ∈ ls.
Proof.
  intros Hls (i & Hi)%list_elem_of_lookup_1.
  destruct (Forall2_lookup_l _ _ _ _ _ Hls Hi) as (lc & Hlc & Hn).
  exists lc. split; [done|]. by eapply list_elem_of_lookup_2.
Qed.

(** The listing holds exactly [p] and what is under it. *)
Lemma nodes_under fuel p l :
  nodes fuel h p = Some l → ∀ q, q ∈ l ↔ q = p ∨ under h p q.
Proof.
  revert p l. induction fuel as [|fuel IH]; intros p l Hn q; [done|].
  destruct (nodes_live _ _ _ Hn) as [o Hp].
  destruct (links o) as [cs|] eqn:Ho.
  - destruct o as [| |cs']; simplify_eq/=.
    destruct (nodes_inv _ _ _ _ Hp Hn) as (ls & Hls & ->).
    rewrite elem_of_cons. apply or_iff_compat_l.
    rewrite (listing_join _ _ _ _ Hls). split.
    + intros (c & lc & Hc & Hlc & Hq).
      assert (child_of h p c) by (exists cs; done).
      apply (IH _ _ Hlc) in Hq as [->|Hq].
      * by apply under_child.
      * by eapply under_deeper.
    + intros (cs' & Hp' & c & Hc & Hq)%under_inv. simplify_eq.
      destruct (listing_child _ _ _ _ Hls Hc) as (lc & Hlc & _).
      exists c, lc. split_and!; [done..|]. by apply (IH _ _ Hlc).
  - rewrite (nodes_leaf _ _ _ _ Hp Ho Hn), list_elem_of_singleton.
    split; [by left|]. intros [?|(cs' & Hp' & _)%under_inv]; [done|].
    simplify_eq.
Qed.

(** A bounded traversal descends: what is under [p] is bounded by less. *)
Lemma under_bounded fuel p q :
  bounded (S fuel) h p → under h p q → bounded fuel h q.
Proof.
  revert p q. induction fuel as [|fuel IH]; intros p q [l Hn] Hu.
  - apply under_inv in Hu as (cs & Hp & c & Hc & _).
    destruct (nodes_inv _ _ _ _ Hp Hn) as (ls & Hls & _).
    by destruct (listing_child _ _ _ _ Hls Hc) as (lc & Hlc & _).
  - apply under_inv in Hu as (cs & Hp & c & Hc & Hq).
    destruct (nodes_inv _ _ _ _ Hp Hn) as (ls & Hls & _).
    destruct (listing_child _ _ _ _ Hls Hc) as (lc & Hlc & _).
    destruct Hq as [->|Hq]; [by exists lc|].
    destruct (IH c q) as [lq Hlq]; [by exists lc|done|].
    exists lq. by apply nodes_mono.
Qed.

(** A bounded structure has no cycle. *)
Lemma bounded_acyclic fuel p : bounded fuel h p → ¬ under h p p.
Proof.
  revert p. induction fuel as [|fuel IH]; intros p Hb Hu.
  - by destruct Hb.
  - apply (IH p); [|done]. by eapply under_bounded.
Qed.
End listings.

(** ** How listings survive a change of the store *)

Lemma nodes_shape fuel (h h' : gmap positive Graphic) p l :
  nodes fuel h p = Some l →
  (∀ q, q ∈ l → links <$> h' !! q = links <$> h !! q) →
  nodes fuel h' p = Some l.
Proof.
  revert p l. induction fuel as [|fuel IH]; intros p l Hn Hag; [done|].
  destruct (nodes_live _ _ _ _ Hn) as [o Hp].
  pose proof (Hag p (nodes_self _ _ _ _ Hn)) as Hp'. rewrite Hp in Hp'.
  destruct (h' !! p) as [o'|] eqn:Ho'; [|done]. simpl in Hp'.
  destruct (links o) as [cs|] eqn:Ho.
  - destruct o as [| |cs1]; try discriminate Ho. injection Ho as ->.
    destruct o' as [| |cs2]; try discriminate Hp'. injection Hp' as ->.
    destruct (nodes_inv _ _ _ _ _ Hp Hn) as (ls & Hls & ->).
    rewrite (nodes_compound _ _ _ _ Ho').
    assert (mapM (nodes fuel h') cs = Some ls) as ->; [|done].
    apply mapM_Some.
    assert (∀ q, q ∈ mjoin ls → links <$> h' !! q = links <$> h !! q) as Hin
      by (intros q Hq; apply Hag; by right).
    clear Hn Hag Hp Ho'. induction Hls as [|c lc cs ls Hc Hcs IHls].
    + constructor.
    + constructor.
      * apply IH; [done|]. intros q Hq. apply Hin. simpl.
        apply elem_of_app; by left.
      * apply IHls. intros q Hq. apply Hin. simpl. apply elem_of_app; by right.
  - rewrite (nodes_leaf _ _ _ _ _ Hp Ho Hn). simpl. rewrite Ho'.
    destruct o; simplify_eq/=; by destruct o'.
Qed.

Lemma set_heap_same s : set_heap (heap s) s = s.
Proof. by destruct s. Qed.

Lemma links_place x y o : links (place x y o) = links o.
Proof. by destruct o. Qed.

Lemma place_place x y o : place x y (place x y o) = place x y o.
Proof. by destruct o. Qed.

Lemma place_last a b c d o : place c d (place a b o) = place c d o.
Proof. by destruct o. Qed.

Lemma lookup_place_all x y l (h : gmap positive Graphic) q :
  place_all x y l h !! q =
  if decide (q ∈ l) then place x y <$> h !! q else h !! q.
Proof.
  revert h. induction l as [|a l IH]; intros h.
  - case_decide as Hq; [by apply elem_of_nil in Hq|done].
  - change (place_all x y (a :: l) h)
      with (place_all x y l (alter (place x y) a h)).
    rewrite IH, lookup_alter.
    destruct (decide (q ∈ l)) as [Hl|Hl], (decide (a = q)) as [->|Ha].
    + rewrite decide_True by left.
      destruct (h !! q); simpl; [|done]. by rewrite place_place.
    + by rewrite decide_True by (by right).
    + by rewrite decide_True by left.
    + rewrite decide_False; [done|]. intros [?|?]%elem_of_cons; by subst.
Qed.

Lemma lookup_delete_all l (h : gmap positive Graphic) q :
  delete_all l h !! q = if decide (q ∈ l) then None else h !! q.
Proof.
  revert h. induction l as [|a l IH]; intros h.
  - case_decide as Hq; [by apply elem_of_nil in Hq|done].
  - change (delete_all (a :: l) h) with (delete_all l (delete a h)).
    rewrite IH, lookup_delete.
    destruct (decide (q ∈ l)) as [Hl|Hl], (decide (a = q)) as [->|Ha].
    + by rewrite decide_True by left.
    + by rewrite decide_True by (by right).
    + by rewrite decide_True by left.
    + rewrite decide_False; [done|]. intros [?|?]%elem_of_cons; by subst.
Qed.

Lemma place_all_app x y l1 l2 (h : gmap positive Graphic) :
  place_all x y (l1 ++ l2) h = place_all x y l2 (place_all x y l1 h).
Proof. apply foldl_app. Qed.

Lemma delete_all_app l1 l2 (h : gmap positive Graphic) :
  delete_all (l1 ++ l2) h = delete_all l2 (delete_all l1 h).
Proof. apply foldl_app. Qed.

Lemma nodes_place_all fuel x y l' (h : gmap positive Graphic) p l :
  nodes fuel h p = Some l → nodes fuel (place_all x y l' h) p = Some l.
Proof.
  intros Hn. apply (nodes_shape _ _ _ _ _ Hn). intros q _.
  rewrite lookup_place_all. destruct (decide _); [|done].
  destruct (h !! q); simpl; [|done]. by rewrite links_place.
Qed.

(** ** [move] *)

Lemma place_all_compound x y p l (h : gmap positive Graphic) children :
  h !! p = Some (CompoundGraphic children) →
  place_all x y (p :: l) h = place_all x y l h.
Proof.
  intros Hp. change (place_all x y (p :: l) h)
    with (place_all x y l (alter (place x y) p h)).
  f_equal. apply map_eq. intros q. rewrite lookup_alter.
  destruct (decide (p = q)) as [<-|]; [|done]. by rewrite Hp.
Qed.

Lemma place_all_leaf x y p (h : gmap positive Graphic) o :
  h !! p = Some o → place_all x y [p] h = <[p := place x y o]> h.
Proof.
  intros Hp. apply map_eq. intros q. unfold place_all. simpl.
  rewrite lookup_alter, lookup_insert.
  destruct (decide (p = q)) as [<-|]; [|done]. by rewrite Hp.
Qed.

Lemma move_unfold fuel this x y :
  move (S fuel) this x y =
  (o <- deref this ;;
   match o with
   | Dot _ _ => store this (Dot x y)
   | Circle _ _ radius => store this (Circle x y radius)
   | CompoundGraphic children => for_each (fun c => move fuel c x y) children
   end).
Proof. reflexivity. Qed.

Lemma deref_live p s o : heap s !! p = Some o → deref p s = Returned o s.
Proof. unfold deref. by intros ->. Qed.

Lemma bind_Returned {A B} (c : M A) (k : A → M B) s a s' :
  c s = Returned a s' → bind c k s = k a s'.
Proof. unfold bind. by intros ->. Qed.

Lemma move_listing fuel p x y s l :
  nodes fuel (heap s) p = Some l →
  move fuel p x y s = Returned tt (set_heap (place_all x y l (heap s)) s).
Proof.
  revert p s l. induction fuel as [|fuel IH]; intros p s l Hn; [done|].
  destruct (nodes_live _ _ _ _ Hn) as [o Hp].
  rewrite move_unfold, (bind_Returned _ _ _ _ _ (deref_live _ _ _ Hp)).
  destruct (links o) as [cs|] eqn:Ho.
  - destruct o as [| |cs']; try discriminate Ho. injection Ho as ->.
    destruct (nodes_inv _ _ _ _ _ Hp Hn) as (ls & Hls & ->).
    rewrite (place_all_compound _ _ _ _ _ _ Hp).
    clear Hn Hp. revert ls s Hls.
    induction cs as [|c cs IHcs]; intros ls s Hls.
    + apply Forall2_nil_inv_l in Hls as ->. simpl. unfold ret.
      by rewrite set_heap_same.
    + apply Forall2_cons_inv_l in Hls as (lc & ls' & Hc & Hls & ->).
      change (for_each (fun c => move fuel c x y) (c :: cs))
        with (move fuel c x y ;;; for_each (fun c => move fuel c x y) cs).
      rewrite (bind_Returned _ _ _ _ _ (IH _ _ _ Hc)).
      rewrite (IHcs ls').
      * change (mjoin (lc :: ls')) with (lc ++ mjoin ls').
        by rewrite place_all_app.
      * eapply Forall2_impl; [exact Hls|]. intros c' lc'.
        apply nodes_place_all.
  - rewrite (nodes_leaf _ _ _ _ _ Hp Ho Hn).
    rewrite (place_all_leaf _ _ _ _ _ Hp).
    by destruct o as [a b|a b r|]; try discriminate Ho.
Qed.

(** ** [draw] *)

Lemma append_nil_r (a : string) : a +:+ "" = a.
Proof.
  induction a as [|c a IH]; [done|].
  change (String c a +:+ "") with (String c (a +:+ "")). by rewrite IH.
Qed.

Lemma append_assoc (a b c : string) : (a +:+ b) +:+ c = a +:+ (b +:+ c).
Proof.
  induction a as [|ch a IH]; [done|].
  change (String ch ((a +:+ b) +:+ c) = String ch (a +:+ (b +:+ c))).
  by rewrite IH.
Qed.

Lemma put_nil s : put "" s = s.
Proof. destruct s as [h c]. unfold put. f_equal. apply append_nil_r. Qed.

Lemma put_put a b s : put b (put a s) = put (a +:+ b) s.
Proof. unfold put. simpl. f_equal. apply append_assoc. Qed.

Lemma rendering_app h l1 l2 :
  rendering h (l1 ++ l2) = rendering h l1 +:+ rendering h l2.
Proof.
  induction l1 as [|q l1 IH]; simpl; [done|]. by rewrite IH, append_assoc.
Qed.

Lemma rendering_cons h q l o :
  h !! q = Some o → rendering h (q :: l) = line o +:+ rendering h l.
Proof. intros Hq. change (rendering h (q :: l))
  with (from_option line "" (h !! q) +:+ rendering h l). by rewrite Hq. Qed.

Lemma draw_unfold fuel this :
  draw (S fuel) this =
  (o <- deref this ;;
   match o with
   | Dot x y =>
       print ("Drawing Dot, x: " +:+ show x +:+ ", y: " +:+ show y +:+ nl)
   | Circle x y _ =>
       print ("Drawing Circle, x: " +:+ show x +:+ ", y: " +:+ show y +:+ nl)
   | CompoundGraphic children => for_each (draw fuel) children
   end).
Proof. reflexivity. Qed.

Lemma draw_children fuel children ls s :
  (∀ c s lc, nodes fuel (heap s) c = Some lc →
     draw fuel c s = Returned tt (put (rendering (heap s) lc) s)) →
  Forall2 (fun c lc => nodes fuel (heap s) c = Some lc) children ls →
  for_each (draw fuel) children s
  = Returned tt (put (rendering (heap s) (mjoin ls)) s).
Proof.
  intros IH. revert ls s.
  induction children as [|c cs IHcs]; intros ls s Hls.
  - apply Forall2_nil_inv_l in Hls as ->. simpl. unfold ret.
    by rewrite put_nil.
  - apply Forall2_cons_inv_l in Hls as (lc & ls' & Hc & Hls & ->).
    change (for_each (draw fuel) (c :: cs))
      with (draw fuel c ;;; for_each (draw fuel) cs).
    rewrite (bind_Returned _ _ _ _ _ (IH _ _ _ Hc)).
    rewrite (IHcs ls') by done.
    change (mjoin (lc :: ls')) with (lc ++ mjoin ls').
    by rewrite rendering_app, put_put.
Qed.

Lemma draw_listing fuel p s l :
  nodes fuel (heap s) p = Some l →
  draw fuel p s = Returned tt (put (rendering (heap s) l) s).
Proof.
  revert p s l. induction fuel as [|fuel IH]; intros p s l Hn; [done|].
  destruct (nodes_live _ _ _ _ Hn) as [o Hp].
  rewrite draw_unfold, (bind_Returned _ _ _ _ _ (deref_live _ _ _ Hp)).
  destruct (links o) as [cs|] eqn:Ho.
  - destruct o as [| |cs']; try discriminate Ho. injection Ho as ->.
    destruct (nodes_inv _ _ _ _ _ Hp Hn) as (ls & Hls & ->).
    rewrite (draw_children _ _ ls) by done.
    by rewrite (rendering_cons _ _ _ _ Hp).
  - rewrite (nodes_leaf _ _ _ _ _ Hp Ho Hn).
    rewrite (rendering_cons _ _ _ _ Hp). change (rendering (heap s) []) with "".
    rewrite append_nil_r. by destruct o; try discriminate Ho.
Qed.

(** ** The destructor *)

Lemma destroy_unfold fuel p :
  destroy (S fuel) p =
  (o <- deref p ;;
   match o with
   | Dot _ _ | Circle _ _ _ => free p
   | CompoundGraphic children => for_each (destroy fuel) children ;;; free p
   end).
Proof. reflexivity. Qed.

Lemma nodes_delete_all fuel l' (h : gmap positive Graphic) p l :
  nodes fuel h p = Some l → (∀ q, q ∈ l → q ∉ l') →
  nodes fuel (delete_all l' h) p = Some l.
Proof.
  intros Hn Hdis. apply (nodes_shape _ _ _ _ _ Hn). intros q Hq.
  rewrite lookup_delete_all. by rewrite decide_False by by apply Hdis.
Qed.

Lemma destroy_children fuel children ls s :
  (∀ c s lc, nodes fuel (heap s) c = Some lc → NoDup lc →
     destroy fuel c s = Returned tt (set_heap (delete_all lc (heap s)) s)) →
  Forall2 (fun c lc => nodes fuel (heap s) c = Some lc) children ls →
  NoDup (mjoin ls) →
  for_each (destroy fuel) children s
  = Returned tt (set_heap (delete_all (mjoin ls) (heap s)) s).
Proof.
  intros IH. revert ls s.
  induction children as [|c cs IHcs]; intros ls s Hls Hnd.
  - apply Forall2_nil_inv_l in Hls as ->. simpl. unfold ret.
    by rewrite set_heap_same.
  - apply Forall2_cons_inv_l in Hls as (lc & ls' & Hc & Hls & ->).
    change (mjoin (lc :: ls')) with (lc ++ mjoin ls') in *.
    apply NoDup_app in Hnd as (Hndc & Hdis & Hnd).
    change (for_each (destroy fuel) (c :: cs))
      with (destroy fuel c ;;; for_each (destroy fuel) cs).
    rewrite (bind_Returned _ _ _ _ _ (IH _ _ _ Hc Hndc)).
    rewrite (IHcs ls'); [by rewrite delete_all_app| |done].
    simpl. apply Forall2_same_length_lookup. split.
    { by eapply Forall2_length. }
    intros i c' lc' Hc' Hlc'.
    pose proof (Forall2_lookup_lr _ _ _ _ _ _ Hls Hc' Hlc') as Hn'.
    apply nodes_delete_all; [done|]. intros q Hq Hq'.
    apply (Hdis q Hq'). apply list_elem_of_join. exists lc'.
    split; [done|]. by eapply list_elem_of_lookup_2.
Qed.

Lemma destroy_listing fuel p s l :
  nodes fuel (heap s) p = Some l → NoDup l →
  destroy fuel p s = Returned tt (set_heap (delete_all l (heap s)) s).
Proof.
  revert p s l. induction fuel as [|fuel IH]; intros p s l Hn Hnd; [done|].
  destruct (nodes_live _ _ _ _ Hn) as [o Hp].
  rewrite destroy_unfold, (bind_Returned _ _ _ _ _ (deref_live _ _ _ Hp)).
  destruct (links o) as [cs|] eqn:Ho.
  - destruct o as [| |cs']; try discriminate Ho. injection Ho as ->.
    destruct (nodes_inv _ _ _ _ _ Hp Hn) as (ls & Hls & ->).
    apply NoDup_cons in Hnd as [Hp' Hnd].
    rewrite (bind_Returned _ _ _ _ _ (destroy_children _ _ ls _ IH Hls Hnd)).
    unfold free, set_heap. simpl. do 2 f_equal. apply map_eq. intros q.
    rewrite lookup_delete, !lookup_delete_all, lookup_delete.
    by repeat case_decide.
  - rewrite (nodes_leaf _ _ _ _ _ Hp Ho Hn).
    by destruct o; try discriminate Ho.
Qed.

(** ** No member function reports a condition *)

Lemma quiet_bind {A B} (c : M A) (k : A → M B) :
  quiet c → (∀ a, quiet (k a)) → quiet (bind c k).
Proof.
  intros Hc Hk s e. unfold bind. specialize (Hc s).
  destruct (c s) as [a s'|e'| | |]; [apply Hk| |done..].
  intros [= ->]. by apply (Hc e).
Qed.

Lemma quiet_for_each {A} (body : A → M unit) l :
  (∀ a, quiet (body a)) → quiet (for_each body l).
Proof.
  intros Hb. induction l as [|a l IH]; simpl; [done|].
  apply quiet_bind; [apply Hb|done].
Qed.

Lemma quiet_deref p : quiet (deref p).
Proof. intros s e. unfold deref. by destruct (heap s !! p). Qed.

Lemma quiet_move fuel this x y : quiet (move fuel this x y).
Proof.
  revert this. induction fuel as [|fuel IH]; intros this; [done|].
  rewrite move_unfold. apply quiet_bind; [apply quiet_deref|].
  intros [a b|a b r|cs]; [done..|]. by apply quiet_for_each.
Qed.

Lemma quiet_draw fuel this : quiet (draw fuel this).
Proof.
  revert this. induction fuel as [|fuel IH]; intros this; [done|].
  rewrite draw_unfold. apply quiet_bind; [apply quiet_deref|].
  intros [a b|a b r|cs]; [done..|]. by apply quiet_for_each.
Qed.

Lemma quiet_destroy fuel p : quiet (destroy fuel p).
Proof.
  revert p. induction fuel as [|fuel IH]; intros p; [done|].
  rewrite destroy_unfold. apply quiet_bind; [apply quiet_deref|].
  intros [a b|a b r|cs]; [done..|].
  apply quiet_bind; [by apply quiet_for_each|done].
Qed.

Lemma quiet_add this child : quiet (add this child).
Proof.
  apply quiet_bind; [apply quiet_deref|]. by intros [a b|a b r|cs].
Qed.

Lemma quiet_remove fuel this child : quiet (remove fuel this child).
Proof.
  apply quiet_bind; [apply quiet_deref|]. intros [a b|a b r|cs]; [done..|].
  destruct (find_child child cs) as [[before after]|]; [|done].
  apply quiet_bind; [done|]. intros _. apply quiet_destroy.
Qed.

Lemma never_Raised fuel op : quiet (perform fuel op).
Proof.
  destruct op; simpl;
    [apply quiet_add|apply quiet_remove|apply quiet_move|apply quiet_draw].
Qed.

(** ** Kinds are kept *)

Lemma keeps_refl s : keeps s s.
Proof. intros p o Hp. by exists o. Qed.

Lemma keeps_trans s1 s2 s3 : keeps s1 s2 → keeps s2 s3 → keeps s1 s3.
Proof.
  intros H12 H23 p o3 Hp. destruct (H23 p o3 Hp) as (o2 & Hp2 & E23).
  destruct (H12 p o2 Hp2) as (o1 & Hp1 & E12). exists o1. split; congruence.
Qed.

Lemma keeps_store s p o o' :
  heap s !! p = Some o → is_leaf o = is_leaf o' →
  keeps s (set_heap (<[p := o']> (heap s)) s).
Proof.
  intros Hp E q oq. simpl. rewrite lookup_insert.
  case_decide; subst; [|by eauto]. intros [= <-]. by exists o.
Qed.

Lemma keeps_free s p : keeps s (set_heap (delete p (heap s)) s).
Proof.
  intros q oq. simpl. rewrite lookup_delete. case_decide; [done|].
  intros Hq. by exists oq.
Qed.

Lemma keeps_put s text : keeps s (put text s).
Proof. intros q oq Hq. by exists oq. Qed.

Lemma keeps_for_each {A} (body : A → M unit) l s s' :
  (∀ a s s', body a s = Returned tt s' → keeps s s') →
  for_each body l s = Returned tt s' → keeps s s'.
Proof.
  intros Hb. revert s. induction l as [|a l IH]; intros s; simpl.
  - intros [= <-]. apply keeps_refl.
  - unfold bind at 1. destruct (body a s) as [[] s1| | | |] eqn:Ha; try done.
    intros Hl. eapply keeps_trans; [by eapply Hb|by apply IH].
Qed.

Lemma keeps_move fuel this x y s s' :
  move fuel this x y s = Returned tt s' → keeps s s'.
Proof.
  revert this s s'. induction fuel as [|fuel IH]; intros this s s'; [done|].
  rewrite move_unfold. unfold bind, deref.
  destruct (heap s !! this) as [[a b|a b r|cs]|] eqn:Hp; try done.
  - intros [= <-]. by eapply keeps_store.
  - intros [= <-]. by eapply keeps_store.
  - apply keeps_for_each. intros c. apply IH.
Qed.

Lemma keeps_draw fuel this s s' :
  draw fuel this s = Returned tt s' → keeps s s'.
Proof.
  revert this s s'. induction fuel as [|fuel IH]; intros this s s'; [done|].
  rewrite draw_unfold. unfold bind, deref.
  destruct (heap s !! this) as [[a b|a b r|cs]|] eqn:Hp; try done.
  - intros [= <-]. apply keeps_put.
  - intros [= <-]. apply keeps_put.
  - apply keeps_for_each. intros c. apply IH.
Qed.

Lemma keeps_destroy fuel p s s' :
  destroy fuel p s = Returned tt s' → keeps s s'.
Proof.
  revert p s s'. induction fuel as [|fuel IH]; intros p s s'; [done|].
  rewrite destroy_unfold. unfold bind at 1. unfold deref.
  destruct (heap s !! p) as [[a b|a b r|cs]|] eqn:Hp; try done.
  - intros [= <-]. apply keeps_free.
  - intros [= <-]. apply keeps_free.
  - unfold bind.
    destruct (for_each (destroy fuel) cs s) as [[] s1| | | |] eqn:Hcs; try done.
    intros [= <-]. eapply keeps_trans; [|apply keeps_free].
    eapply keeps_for_each; [|exact Hcs]. intros c. apply IH.
Qed.

Lemma keeps_add this child s s' :
  add this child s = Returned tt s' → keeps s s'.
Proof.
  unfold add, bind, deref.
  destruct (heap s !! this) as [[a b|a b r|cs]|] eqn:Hp; try done.
  intros [= <-]. by eapply keeps_store.
Qed.

Lemma keeps_remove fuel this child s s' :
  remove fuel this child s = Returned tt s' → keeps s s'.
Proof.
  unfold remove, bind, deref.
  destruct (heap s !! this) as [[a b|a b r|cs]|] eqn:Hp; try done.
  destruct (find_child child cs) as [[before after]|].
  - unfold store. intros Hd. eapply keeps_trans; [|by eapply keeps_destroy].
    by eapply keeps_store.
  - intros [= <-]. apply keeps_refl.
Qed.

Lemma keeps_perform fuel op s s' :
  perform fuel op s = Returned tt s' → keeps s s'.
Proof.
  destruct op; simpl;
    [apply keeps_add|apply keeps_remove|apply keeps_move|apply keeps_draw].
Qed.

Lemma Type__live this s o :
  heap s !! this = Some o →
  Type_ this s
  = Returned (if is_leaf o then holds_Leaf this else holds_Compound this) s.
Proof. intros Hp. unfold Type_, bind, deref. rewrite Hp. by destruct o. Qed.

Lemma Type__inv this s v s' :
  Type_ this s = Returned v s' →
  s' = s ∧ ∃ o, heap s !! this = Some o
    ∧ v = if is_leaf o then holds_Leaf this else holds_Compound this.
Proof.
  unfold Type_, bind, deref. destruct (heap s !! this) as [o|] eqn:Hp; [|done].
  destruct o; intros [= <- <-]; (split; [done|]); eexists; by split.
Qed.

(** ** [add] and [remove] *)

Lemma find_child_None child children :
  find_child child children = None ↔ child ∉ children.
Proof.
  induction children as [|c cs IH]; simpl.
  - split; [intros _; apply not_elem_of_nil|done].
  - rewrite not_elem_of_cons. destruct (decide (c = child)) as [->|Hne].
    + split; [done|]. by intros [? _].
    + destruct (find_child child cs) as [[b a]|]; simpl.
      * split; [done|]. intros [_ Hcs]. by apply IH in Hcs.
      * split; [|done]. intros _. split; [done|]. by apply IH.
Qed.

Lemma find_child_Some child children before after :
  find_child child children = Some (before, after) →
  children = before ++ child :: after ∧ child ∉ before.
Proof.
  revert before. induction children as [|c cs IH]; intros before; [done|].
  simpl. destruct (decide (c = child)) as [->|Hne].
  - intros [= <- <-]. split; [done|]. apply not_elem_of_nil.
  - destruct (find_child child cs) as [[b a]|]; simpl; [|done].
    intros [= <- <-]. destruct (IH b eq_refl) as [-> Hb].
    split; [done|]. apply not_elem_of_cons. by split.
Qed.

Lemma add_container s C children n :
  heap s !! C = Some (CompoundGraphic children) →
  add C n s
  = Returned tt (set_heap (<[C := CompoundGraphic (children ++ [n])]> (heap s)) s).
Proof. intros HC. unfold add, bind, deref. by rewrite HC. Qed.

Lemma remove_absent fuel s C children n :
  heap s !! C = Some (CompoundGraphic children) → n ∉ children →
  remove fuel C n s = Returned tt s.
Proof.
  intros HC Hn. unfold remove, bind, deref. rewrite HC.
  apply find_child_None in Hn. by rewrite Hn.
Qed.

(** In a tree no child is held twice. *)
Lemma listing_NoDup fuel (h : gmap positive Graphic) children ls :
  Forall2 (fun c lc => nodes fuel h c = Some lc) children ls →
  NoDup (mjoin ls) → NoDup children.
Proof.
  induction 1 as [|c lc cs ls Hc Hcs IH]; [constructor|].
  change (mjoin (lc :: ls)) with (lc ++ mjoin ls).
  intros (_ & Hdis & Hnd)%NoDup_app. apply NoDup_cons. split; [|by apply IH].
  intros Hin. destruct (listing_child _ _ _ _ _ Hcs Hin) as (lc' & Hc' & Hlc').
  apply (Hdis c); [by eapply nodes_self|].
  apply list_elem_of_join. exists lc'. split; [by eapply nodes_self|done].
Qed.

Lemma remove_present fuel s C children l n :
  heap s !! C = Some (CompoundGraphic children) →
  nodes (S fuel) (heap s) C = Some l → NoDup l → n ∈ children →
  ∃ before after ln,
    children = before ++ n :: after ∧ (n ∉ before ++ after)
    ∧ nodes fuel (heap s) n = Some ln ∧ (C ∉ ln)
    ∧ remove fuel C n s
      = Returned tt
          (set_heap (delete_all ln
             (<[C := CompoundGraphic (before ++ after)]> (heap s))) s).
Proof.
  intros HC Hn Hnd Hin.
  destruct (nodes_inv _ _ _ _ _ HC Hn) as (ls & Hls & ->).
  apply NoDup_cons in Hnd as [HCl Hnd].
  pose proof (listing_NoDup _ _ _ _ Hls Hnd) as Hcs.
  destruct (find_child n children) as [[before after]|] eqn:Hf.
  2:{ by apply find_child_None in Hf. }
  destruct (find_child_Some _ _ _ _ Hf) as [-> Hb].
  destruct (listing_child _ _ _ _ _ Hls Hin) as (ln & Hln & Hlnls).
  assert (C ∉ ln) as HCn.
  { intros HC'. apply HCl, list_elem_of_join. by exists ln. }
  exists before, after, ln. split_and!; [done| |done|done|].
  - apply NoDup_app in Hcs as (_ & Hdis & [Ha _]%NoDup_cons).
    apply not_elem_of_app. by split.
  - unfold remove. rewrite (bind_Returned _ _ _ _ _ (deref_live _ _ _ HC)), Hf.
    unfold bind at 1. unfold store.
    rewrite (destroy_listing _ _ _ ln); [done| |].
    + simpl. apply (nodes_shape _ _ _ _ _ Hln). intros q Hq.
      rewrite lookup_insert_ne; [done|]. by intros <-.
    + clear -Hnd Hlnls. induction ls as [|l0 ls IH]; [by apply elem_of_nil in Hlnls|].
      change (mjoin (l0 :: ls)) with (l0 ++ mjoin ls) in Hnd.
      apply NoDup_app in Hnd as (H0 & _ & Hrest).
      apply elem_of_cons in Hlnls as [->|Hin]; [done|by apply IH].
Qed.

(** * The claims *)

Lemma nodes_of_leaf fuel (h : gmap positive Graphic) p o :
  h !! p = Some o → is_leaf o = true → nodes (S fuel) h p = Some [p].
Proof. intros Hp Ho. simpl. rewrite Hp. by destruct o. Qed.

Lemma reported_place x y s p o (h' : gmap positive Graphic) :
  heap s !! p = Some o → is_Some (reported s p) →
  h' !! p = place x y <$> heap s !! p →
  reported (set_heap h' s) p = Some (x, y).
Proof.
  unfold reported. simpl. intros Hp [xy Hr] ->. rewrite Hp in *. simpl in *.
  by destruct o.
Qed.

(** ** C1: [move] on a container *)

(** C1, as stated, fails: a container holding a dot at (10, 20) is moved by
    (1, 1); the dot then reports (1, 1), not (11, 21). *)
Lemma move_is_not_a_translation :
  let s := mkState (<[1%positive := CompoundGraphic [2%positive]]>
                      (<[2%positive := Dot 10 20]> ∅)) "" in
  under (heap s) 1 2 ∧ reported s 2 = Some (10, 20)
  ∧ ∃ s', move 2 1 1 1 s = Returned tt s'
      ∧ reported s' 2 = Some (1, 1)
      ∧ reported s' 2 ≠ Some (10 + 1, 20 + 1).
Proof.
  simpl. split_and!.
  - apply under_child. exists [2%positive]. split; [reflexivity|left].
  - reflexivity.
  - eexists. split_and!; [reflexivity|reflexivity|]. vm_compute. discriminate.
Qed.

(** C1 (amended): for every container C whose structure is bounded and all
    integers x, y, [move(x, y)] on C returns; every node N under C, at any
    depth, that reports a position reports exactly (x, y) afterwards (its
    object is the old one with the position replaced); every node that is
    not under C is unchanged; nothing is written. *)
Theorem move_places_what_is_under fuel s C children x y :
  heap s !! C = Some (CompoundGraphic children) →
  bounded fuel (heap s) C →
  ∃ s', move fuel C x y s = Returned tt s'
    ∧ (∀ N, under (heap s) C N →
         heap s' !! N = place x y <$> heap s !! N
         ∧ (is_Some (reported s N) → reported s' N = Some (x, y)))
    ∧ (∀ N, ¬ under (heap s) C N → heap s' !! N = heap s !! N)
    ∧ cout s' = cout s.
Proof.
  intros HC [l Hl]. eexists. split; [by apply move_listing|].
  pose proof (nodes_under _ _ _ _ Hl) as Hin. split_and!; [| |done].
  - intros N HN. assert (N ∈ l) as HNl by (apply Hin; by right).
    assert (place_all x y l (heap s) !! N = place x y <$> heap s !! N) as HN'.
    { by rewrite lookup_place_all, decide_True. }
    split; [done|]. intros Hr. destruct (heap s !! N) as [o|] eqn:Ho.
    + eapply reported_place; [done|done|]. by rewrite Ho.
    + unfold reported in Hr. rewrite Ho in Hr. by destruct Hr.
  - intros N HN. simpl. rewrite lookup_place_all.
    case_decide as HNl; [|done].
    apply Hin in HNl as [->|?]; [|done]. by rewrite HC.
Qed.

Lemma move_places_what_is_under_witness :
  let s := mkState (<[1%positive := CompoundGraphic [2%positive]]>
                      (<[2%positive := Dot 10 20]> ∅)) "" in
  ∃ s', move 2 1 7 8 s = Returned tt s'
    ∧ (∀ N, under (heap s) 1 N →
         heap s' !! N = place 7 8 <$> heap s !! N
         ∧ (is_Some (reported s N) → reported s' N = Some (7, 8)))
    ∧ (∀ N, ¬ under (heap s) 1 N → heap s' !! N = heap s !! N)
    ∧ cout s' = cout s.
Proof.
  apply (move_places_what_is_under 2 _ 1%positive [2%positive] 7 8).
  - reflexivity.
  - eexists. vm_compute. reflexivity.
Defined.

(** ** C10: [move] is last-write-wins *)

(** C10: on a leaf, [move(a, b)] followed by [move(c, d)] leaves exactly
    the state [move(c, d)] alone leaves, in which the leaf reports (c, d);
    and after [move(c, d)] on any bounded container the leaf is under, it
    reports (c, d) whatever it reported before. *)
Theorem move_last_write_wins fuel s p o a b c d :
  heap s !! p = Some o → is_leaf o = true →
  (move (S fuel) p a b ;;; move (S fuel) p c d) s = move (S fuel) p c d s
  ∧ (∃ s', move (S fuel) p c d s = Returned tt s'
       ∧ heap s' = <[p := place c d o]> (heap s)
       ∧ reported s' p = Some (c, d))
  ∧ (∀ C fuel', bounded fuel' (heap s) C → under (heap s) C p →
       ∃ s', move fuel' C c d s = Returned tt s'
         ∧ reported s' p = Some (c, d)).
Proof.
  intros Hp Ho.
  assert (∀ x y s1 o1, heap s1 !! p = Some o1 → is_leaf o1 = true →
    move (S fuel) p x y s1
    = Returned tt (set_heap (<[p := place x y o1]> (heap s1)) s1)) as Hmv.
  { intros x y s1 o1 Hp1 Ho1.
    rewrite (move_listing _ _ _ _ _ [p]) by by eapply nodes_of_leaf.
    by erewrite place_all_leaf. }
  assert (∀ x y o1, is_leaf o1 = true → position (place x y o1) = Some (x, y))
    as Hpos by (by intros x y [| |]).
  split_and!.
  - rewrite (bind_Returned _ _ _ _ _ (Hmv a b s o Hp Ho)).
    rewrite (Hmv c d _ (place a b o)), (Hmv c d s o); try done.
    + unfold set_heap. simpl. by rewrite insert_insert_eq, place_last.
    + simpl. by rewrite lookup_insert_eq.
    + by destruct o.
  - eexists. split_and!; [by apply Hmv|done|].
    unfold reported. simpl. rewrite lookup_insert_eq. simpl. by apply Hpos.
  - intros C fuel' [l Hl] Hu. eexists. split; [by apply move_listing|].
    unfold reported. simpl. rewrite lookup_place_all, decide_True.
    + rewrite Hp. simpl. by apply Hpos.
    + apply (nodes_under _ _ _ _ Hl). by right.
Qed.

Lemma move_last_write_wins_witness :
  let s := mkState (<[1%positive := CompoundGraphic [2%positive]]>
                      (<[2%positive := Circle 10 20 3]> ∅)) "" in
  (move 1 2 4 5 ;;; move 1 2 6 7) s = move 1 2 6 7 s
  ∧ (∃ s', move 1 2 6 7 s = Returned tt s'
       ∧ heap s' = <[2%positive := Circle 6 7 3]> (heap s)
       ∧ reported s' 2 = Some (6, 7))
  ∧ (∃ s', move 2 1 6 7 s = Returned tt s' ∧ reported s' 2 = Some (6, 7)).
Proof.
  intros s.
  destruct (move_last_write_wins 0 s 2%positive (Circle 10 20 3) 4 5 6 7
              eq_refl eq_refl) as (Htwice & Honce & Hunder).
  split_and!; [exact Htwice|exact Honce|].
  apply (Hunder 1%positive 2%nat).
  - eexists. vm_compute. reflexivity.
  - apply under_child. exists [2%positive]. split; [reflexivity|left].
Defined.

(** ** C6: [add] *)

(** C6, as stated, fails on "returns a handle": [add] returns [void], so
    what it returns is the same for two different nodes and cannot tell
    which node was added. *)
Lemma add_returns_no_handle :
  let s := mkState (<[1%positive := CompoundGraphic []]>
                      (<[2%positive := Dot 0 0]>
                         (<[3%positive := Dot 0 0]> ∅))) "" in
  ¬ ∃ node_of : unit → ptr,
      ∀ n v s', add 1 n s = Returned v s' → node_of v = n.
Proof.
  simpl. intros (node_of & Hid).
  pose proof (Hid 2%positive tt _ eq_refl) as H2.
  pose proof (Hid 3%positive tt _ eq_refl) as H3.
  congruence.
Qed.

(** C6 (amended): for every container C and node n, [add(n)] on C never
    fails and returns nothing; afterwards C's child sequence is the old one
    with n appended (every previous child keeps its index, n is last), no
    other object has changed and nothing is written.  The address n, which
    the caller holds from before the call, is what identifies the child. *)
Theorem add_appends s C children n :
  heap s !! C = Some (CompoundGraphic children) →
  ∃ s', add C n s = Returned tt s'
    ∧ heap s' !! C = Some (CompoundGraphic (children ++ [n]))
    ∧ (∀ i c, children !! i = Some c → (children ++ [n]) !! i = Some c)
    ∧ (children ++ [n]) !! length children = Some n
    ∧ last (children ++ [n]) = Some n
    ∧ (∀ q, q ≠ C → heap s' !! q = heap s !! q)
    ∧ cout s' = cout s.
Proof.
  intros HC. eexists. split; [by apply add_container|]. simpl. split_and!.
  - by rewrite lookup_insert_eq.
  - intros i c Hi. by apply lookup_app_l_Some.
  - by rewrite list_lookup_middle.
  - by rewrite last_snoc.
  - intros q Hq. by rewrite lookup_insert_ne.
  - done.
Qed.

Lemma add_appends_witness :
  let s := mkState (<[1%positive := CompoundGraphic [2%positive]]>
                      (<[2%positive := Dot 10 20]>
                         (<[3%positive := Circle 5 5 3]> ∅))) "" in
  ∃ s', add 1 3 s = Returned tt s'
    ∧ heap s' !! 1%positive = Some (CompoundGraphic ([2%positive] ++ [3%positive]))
    ∧ (∀ i c, [2%positive] !! i = Some c
         → ([2%positive] ++ [3%positive]) !! i = Some c)
    ∧ ([2%positive] ++ [3%positive]) !! length [2%positive] = Some 3%positive
    ∧ last ([2%positive] ++ [3%positive]) = Some 3%positive
    ∧ (∀ q, q ≠ 1%positive → heap s' !! q = heap s !! q)
    ∧ cout s' = cout s.
Proof.
  apply (add_appends _ 1%positive [2%positive] 3%positive). reflexivity.
Defined.

(** ** C5: [draw] on a container *)

Lemma add_each s C children ns :
  heap s !! C = Some (CompoundGraphic children) →
  for_each (add C) ns s
  = Returned tt
      (set_heap (<[C := CompoundGraphic (children ++ ns)]> (heap s)) s).
Proof.
  revert s children. induction ns as [|n ns IH]; intros s children HC.
  - simpl. unfold ret. rewrite app_nil_r, insert_id by done.
    by rewrite set_heap_same.
  - change (for_each (add C) (n :: ns)) with (add C n ;;; for_each (add C) ns).
    rewrite (bind_Returned _ _ _ _ _ (add_container _ _ _ n HC)).
    rewrite (IH _ (children ++ [n])) by (simpl; by rewrite lookup_insert_eq).
    unfold set_heap. simpl. by rewrite insert_insert_eq, <- app_assoc.
Qed.

Lemma rendering_join h ls :
  rendering h (mjoin ls) = joined (rendering h <$> ls).
Proof.
  induction ls as [|l ls IH]; [done|].
  change (mjoin (l :: ls)) with (l ++ mjoin ls).
  rewrite rendering_app, IH. done.
Qed.

(** C5: take any container C and add the nodes [ns] to it, one after the
    other.  C then holds its old children followed by [ns] in the order of
    the calls, and when the structure then under C is bounded, [draw] on C
    returns and writes exactly what [draw] on each child writes, child after
    child in that order; a child that is itself a container is drawn by
    the same rule, so the whole output is the lines of the objects under C
    in visiting order.  A container without children writes nothing. *)
Theorem draw_in_insertion_order fuel s C children ns :
  heap s !! C = Some (CompoundGraphic children) →
  bounded (S fuel) (<[C := CompoundGraphic (children ++ ns)]> (heap s)) C →
  ∃ s', for_each (add C) ns s = Returned tt s'
    ∧ heap s' !! C = Some (CompoundGraphic (children ++ ns))
    ∧ ∃ outs,
        Forall2 (fun c out => draw fuel c s' = Returned tt (put out s'))
          (children ++ ns) outs
        ∧ draw (S fuel) C s' = Returned tt (put (joined outs) s')
        ∧ (∃ l, nodes (S fuel) (heap s') C = Some (C :: l)
             ∧ joined outs = rendering (heap s') l)
        ∧ (children ++ ns = [] → draw (S fuel) C s' = Returned tt s').
Proof.
  intros HC [l Hl]. eexists. split; [by apply add_each|].
  set (s' := set_heap _ s).
  assert (heap s' !! C = Some (CompoundGraphic (children ++ ns))) as HC'
    by (simpl; by rewrite lookup_insert_eq).
  split; [done|].
  change (nodes (S fuel) (heap s') C = Some l) in Hl.
  destruct (nodes_inv _ _ _ _ _ HC' Hl) as (ls & Hls & ->).
  exists (rendering (heap s') <$> ls). split_and!.
  - apply Forall2_fmap_r. eapply Forall2_impl; [exact Hls|].
    intros c lc Hc. by apply draw_listing.
  - rewrite (draw_listing _ _ _ _ Hl), (rendering_cons _ _ _ _ HC').
    by rewrite rendering_join.
  - exists (mjoin ls). by rewrite rendering_join.
  - intros Hnil. rewrite draw_unfold.
    rewrite (bind_Returned _ _ _ _ _ (deref_live _ _ _ HC')).
    by rewrite Hnil.
Qed.

Lemma draw_in_insertion_order_witness :
  let s := mkState (<[1%positive := CompoundGraphic [2%positive]]>
                      (<[2%positive := Dot 10 20]>
                         (<[3%positive := Circle 5 5 3]>
                            (<[4%positive := CompoundGraphic []]> ∅)))) "" in
  ∃ s', for_each (add 1) [4%positive; 3%positive] s = Returned tt s'
    ∧ heap s' !! 1%positive
      = Some (CompoundGraphic ([2%positive] ++ [4%positive; 3%positive]))
    ∧ ∃ outs,
        Forall2 (fun c out => draw 1 c s' = Returned tt (put out s'))
          ([2%positive] ++ [4%positive; 3%positive]) outs
        ∧ draw 2 1 s' = Returned tt (put (joined outs) s')
        ∧ (∃ l, nodes 2 (heap s') 1 = Some (1%positive :: l)
             ∧ joined outs = rendering (heap s') l)
        ∧ ([2%positive] ++ [4%positive; 3%positive] = []
           → draw 2 1 s' = Returned tt s').
Proof.
  apply (draw_in_insertion_order 1 _ 1%positive [2%positive]
           [4%positive; 3%positive]).
  - reflexivity.
  - eexists. vm_compute. reflexivity.
Defined.

(** ** C4: [remove] twice *)

Lemma bounded_children_live fuel (h : gmap positive Graphic) C children c :
  h !! C = Some (CompoundGraphic children) → bounded fuel h C →
  c ∈ children → is_Some (h !! c).
Proof.
  intros HC [l Hl] Hc. destruct fuel as [|fuel]; [done|].
  destruct (nodes_inv _ _ _ _ _ HC Hl) as (ls & Hls & _).
  destruct (listing_child _ _ _ _ _ Hls Hc) as (lc & Hlc & _).
  by eapply nodes_live.
Qed.

(** C4: for every container C and handle h: when h is not among C's
    children, [remove(h)] returns without changing anything, in particular
    when h's referent is gone and C holds no dangling pointer; and when the
    structure at C is a tree (every object has its single owner),
    [remove(h)] returns, and calling it a second time returns the same
    state: the second call changes nothing, and a removed child is gone. *)
Theorem remove_twice_is_remove_once fuel s C children h :
  heap s !! C = Some (CompoundGraphic children) →
  (h ∉ children → remove fuel C h s = Returned tt s)
  ∧ (heap s !! h = None → bounded (S fuel) (heap s) C →
       remove fuel C h s = Returned tt s)
  ∧ (tree_at (S fuel) (heap s) C →
       ∃ s1, remove fuel C h s = Returned tt s1
         ∧ remove fuel C h s1 = Returned tt s1
         ∧ (remove fuel C h ;;; remove fuel C h) s = remove fuel C h s
         ∧ (h ∈ children → heap s1 !! h = None)).
Proof.
  intros HC. split_and!.
  - by apply remove_absent.
  - intros Hh Hb. eapply remove_absent; [done|]. intros Hin.
    destruct (bounded_children_live _ _ _ _ _ HC Hb Hin) as [o Ho]. congruence.
  - intros (l & Hl & Hnd). destruct (decide (h ∈ children)) as [Hin|Hout].
    + destruct (remove_present _ _ _ _ _ _ HC Hl Hnd Hin)
        as (before & after & ln & -> & Hgone & Hln & HCn & Hrm).
      eexists. split; [exact Hrm|].
      assert (remove fuel C h
                (set_heap (delete_all ln
                   (<[C := CompoundGraphic (before ++ after)]> (heap s))) s)
              = Returned tt
                  (set_heap (delete_all ln
                     (<[C := CompoundGraphic (before ++ after)]> (heap s))) s))
        as Hagain.
      { eapply remove_absent; [|exact Hgone]. simpl.
        rewrite lookup_delete_all, decide_False by done.
        by rewrite lookup_insert_eq. }
      split_and!; [done| |].
      * by rewrite (bind_Returned _ _ _ _ _ Hrm), Hagain, Hrm.
      * intros _. simpl. rewrite lookup_delete_all, decide_True; [done|].
        by eapply nodes_self.
    + pose proof (remove_absent fuel _ _ _ _ HC Hout) as Hrm.
      exists s. split_and!; [done..| |done].
      by rewrite (bind_Returned _ _ _ _ _ Hrm).
Qed.

Lemma remove_twice_is_remove_once_witness :
  let s := mkState (<[1%positive := CompoundGraphic [2%positive; 3%positive]]>
                      (<[2%positive := CompoundGraphic [4%positive]]>
                         (<[3%positive := Circle 5 5 3]>
                            (<[4%positive := Dot 10 20]> ∅)))) "" in
  remove 2 1 9 s = Returned tt s
  ∧ ∃ s1, remove 2 1 2 s = Returned tt s1
      ∧ remove 2 1 2 s1 = Returned tt s1
      ∧ (remove 2 1 2 ;;; remove 2 1 2) s = remove 2 1 2 s
      ∧ heap s1 !! 2%positive = None.
Proof.
  intros s.
  assert (heap s !! 1%positive
          = Some (CompoundGraphic [2%positive; 3%positive])) as HC
    by reflexivity.
  destruct (remove_twice_is_remove_once 2 s 1 _ 9 HC) as (_ & Hstale & _).
  destruct (remove_twice_is_remove_once 2 s 1 _ 2 HC) as (_ & _ & Htree).
  split.
  - apply Hstale; [reflexivity|]. eexists. vm_compute. reflexivity.
  - destruct Htree as (s1 & H1 & H2 & H3 & H4).
    + exists [1; 2; 4; 3]%positive. split; [vm_compute; reflexivity|].
      compute_done.
    + exists s1. split_and!; [done..|]. apply H4. left.
Defined.

(** ** C2: container-only operations on a leaf *)



(** ** C3: adding a container to itself *)

Lemma draw_cycle fuel C s :
  heap s !! C = Some (CompoundGraphic [C]) → draw fuel C s = OutOfFuel.
Proof.
  intros HC. induction fuel as [|fuel IH]; [done|].
  rewrite draw_unfold, (bind_Returned _ _ _ _ _ (deref_live _ _ _ HC)).
  simpl. unfold bind. by rewrite IH.
Qed.

Lemma move_cycle fuel C x y s :
  heap s !! C = Some (CompoundGraphic [C]) → move fuel C x y s = OutOfFuel.
Proof.
  intros HC. induction fuel as [|fuel IH]; [done|].
  rewrite move_unfold, (bind_Returned _ _ _ _ _ (deref_live _ _ _ HC)).
  simpl. unfold bind. by rewrite IH.
Qed.

(** C3, as stated, fails: a fresh container is handed to its own [add].
    The call returns normally ([CycleDetected] is not reported), the
    container is then under itself, and neither [draw] nor [move] on it
    comes back, whatever the depth allowed. *)
Lemma add_into_itself_is_accepted :
  ∃ C s s0,
    new_ (CompoundGraphic []) boot = Returned C s0
    ∧ add C C s0 = Returned tt s
    ∧ add C C s0 ≠ Raised CycleDetected
    ∧ self_owned boot = Returned C s
    ∧ under (heap s) C C
    ∧ ∀ fuel x y,
        draw fuel C s = OutOfFuel ∧ move fuel C x y s = OutOfFuel.
Proof.
  eexists 1%positive, _, _. split_and!; [reflexivity..|discriminate| | |].
  - reflexivity.
  - apply under_child. exists [1%positive]. split; [reflexivity|left].
  - intros fuel x y. split; [by apply draw_cycle|by apply move_cycle].
Qed.

Lemma not_under_listing fuel (h : gmap positive Graphic) p l q :
  nodes fuel h p = Some l → q ∉ l → ¬ under h p q.
Proof. intros Hl Hq Hu. apply Hq, (nodes_under _ _ _ _ Hl). by right. Qed.

Lemma add_keeps_bounded fuel (h : gmap positive Graphic) C children n :
  h !! C = Some (CompoundGraphic children) →
  bounded fuel h C → bounded fuel h n → n ≠ C → ¬ under h n C →
  bounded (S fuel) (<[C := CompoundGraphic (children ++ [n])]> h) C.
Proof.
  intros HC HbC [ln Hln] HnC Hnu.
  pose proof (bounded_acyclic _ _ _ HbC) as Hacyc.
  destruct HbC as [l Hl]. destruct fuel as [|fuel]; [done|].
  destruct (nodes_inv _ _ _ _ _ HC Hl) as (ls & Hls & _).
  set (h' := <[C := CompoundGraphic (children ++ [n])]> h).
  assert (∀ c lc, nodes (S fuel) h c = Some lc → C ∉ lc →
            nodes (S fuel) h' c = Some lc) as Hkeep.
  { intros c lc Hc HClc. apply (nodes_shape _ _ _ _ _ Hc). intros q Hq.
    unfold h'. rewrite lookup_insert_ne; [done|]. by intros <-. }
  assert (mapM (nodes (S fuel) h') (children ++ [n]) = Some (ls ++ [ln]))
    as Hall.
  { apply mapM_Some, Forall2_app.
    - apply Forall2_same_length_lookup. split; [by eapply Forall2_length|].
      intros i c lc Hc Hlc.
      pose proof (Forall2_lookup_lr _ _ _ _ _ _ Hls Hc Hlc) as Hn.
      apply nodes_mono in Hn. apply Hkeep; [done|]. intros HClc.
      assert (child_of h C c) as Hcc.
      { exists children. split; [done|]. by eapply list_elem_of_lookup_2. }
      apply Hacyc. apply (nodes_under _ _ _ _ Hn) in HClc as [->|Hu].
      + by apply under_child.
      + by eapply under_deeper.
    - constructor; [|constructor]. apply Hkeep; [done|]. intros HClc.
      apply (nodes_under _ _ _ _ Hln) in HClc as [->|Hu]; [done|by apply Hnu]. }
  eexists. rewrite (nodes_compound h' _ C (children ++ [n])), Hall; [done|].
  unfold h'. by rewrite lookup_insert_eq.
Qed.

(** C3 (amended): [add] makes no cycle check.  For every container C and
    node n, also when n is C itself or holds C, [add(n)] on C returns
    normally and appends n; no operation ever reports a condition.  When
    n is neither C nor holds C, and the structures at C and at n were
    bounded, the structure at C stays bounded and [draw] and [move] on C
    return. *)
Theorem add_checks_no_cycle fuel s C children n :
  heap s !! C = Some (CompoundGraphic children) →
  ∃ s', add C n s = Returned tt s'
    ∧ heap s' = <[C := CompoundGraphic (children ++ [n])]> (heap s)
    ∧ (∀ op e, perform fuel op s ≠ Raised e)
    ∧ (bounded fuel (heap s) C → bounded fuel (heap s) n →
       n ≠ C → ¬ under (heap s) n C →
       bounded (S fuel) (heap s') C
       ∧ (∃ s'', draw (S fuel) C s' = Returned tt s'')
       ∧ (∀ x y, ∃ s'', move (S fuel) C x y s' = Returned tt s'')).
Proof.
  intros HC. eexists. split; [by apply add_container|].
  split_and!; [done|intros op e; apply never_Raised|].
  intros HbC Hbn HnC Hnu.
  pose proof (add_keeps_bounded _ _ _ _ _ HC HbC Hbn HnC Hnu) as Hb.
  split; [exact Hb|]. destruct Hb as [l Hl]. split.
  - eexists. by apply draw_listing.
  - intros x y. eexists. by apply move_listing.
Qed.

Lemma add_checks_no_cycle_witness :
  let s := mkState (<[1%positive := CompoundGraphic [2%positive]]>
                      (<[2%positive := Dot 10 20]>
                         (<[3%positive := CompoundGraphic [4%positive]]>
                            (<[4%positive := Circle 5 5 3]> ∅)))) "" in
  ∃ s', add 1 3 s = Returned tt s'
    ∧ heap s'
      = <[1%positive := CompoundGraphic ([2%positive] ++ [3%positive])]> (heap s)
    ∧ bounded 3 (heap s') 1
    ∧ (∃ s'', draw 3 1 s' = Returned tt s'')
    ∧ (∀ x y, ∃ s'', move 3 1 x y s' = Returned tt s'').
Proof.
  intros s.
  destruct (add_checks_no_cycle 2 s 1%positive [2%positive] 3%positive eq_refl)
    as (s' & Hadd & Hheap & _ & Hterm).
  destruct Hterm as (Hb & Hdraw & Hmove).
  - eexists. vm_compute. reflexivity.
  - eexists. vm_compute. reflexivity.
  - done.
  - apply (not_under_listing 2 _ _ [3; 4]%positive).
    + vm_compute. reflexivity.
    + compute_done.
  - by exists s'.
Defined.

(** ** C9: the kind of a node *)

Lemma keeps_performs fuel ops s s' :
  for_each (perform fuel) ops s = Returned tt s' → keeps s s'.
Proof. apply keeps_for_each. intros op. apply keeps_perform. Qed.

Lemma stays_trans s1 s2 s3 : stays s1 s2 → stays s2 s3 → stays s1 s3.
Proof.
  intros H12 H23 p o Hp. destruct (H12 p o Hp) as [o2 Hp2]. by eapply H23.
Qed.

Lemma stays_store s p o : stays s (set_heap (<[p := o]> (heap s)) s).
Proof.
  intros q oq Hq. simpl. rewrite lookup_insert. case_decide; eauto.
Qed.

Lemma stays_for_each {A} (P : A → Prop) (body : A → M unit) l s s' :
  (∀ a s s', P a → body a s = Returned tt s' → stays s s') →
  Forall P l → for_each body l s = Returned tt s' → stays s s'.
Proof.
  intros Hb Hl. revert s. induction Hl as [|a l Ha Hl IH]; intros s; simpl.
  - intros [= <-] p o Hp. eauto.
  - unfold bind at 1. destruct (body a s) as [[] s1| | | |] eqn:Hs1; try done.
    intros Hrest. eapply stays_trans; [by eapply Hb|by apply IH].
Qed.

Lemma stays_move fuel this x y s s' :
  move fuel this x y s = Returned tt s' → stays s s'.
Proof.
  revert this s s'. induction fuel as [|fuel IH]; intros this s s'; [done|].
  rewrite move_unfold. unfold bind, deref.
  destruct (heap s !! this) as [[a b|a b r|cs]|] eqn:Hp; try done.
  - intros [= <-]. apply stays_store.
  - intros [= <-]. apply stays_store.
  - apply (stays_for_each (fun _ => True)); [|by apply Forall_true].
    intros c s1 s2 _. apply IH.
Qed.

Lemma stays_draw fuel this s s' :
  draw fuel this s = Returned tt s' → stays s s'.
Proof.
  revert this s s'. induction fuel as [|fuel IH]; intros this s s'; [done|].
  rewrite draw_unfold. unfold bind, deref.
  destruct (heap s !! this) as [[a b|a b r|cs]|] eqn:Hp; try done.
  - intros [= <-] q oq Hq. eauto.
  - intros [= <-] q oq Hq. eauto.
  - apply (stays_for_each (fun _ => True)); [|by apply Forall_true].
    intros c s1 s2 _. apply IH.
Qed.

Lemma stays_perform fuel op s s' :
  destroys_nothing op → perform fuel op s = Returned tt s' → stays s s'.
Proof.
  destruct op as [this child|this child|this x y|this]; simpl; [|done|..].
  - intros _. unfold add, bind, deref.
    destruct (heap s !! this) as [[a b|a b r|cs]|]; try done.
    intros [= <-]. apply stays_store.
  - intros _. apply stays_move.
  - intros _. apply stays_draw.
Qed.

(** C9: for every live node, [Type()] returns, changes nothing and holds
    the alternative of the node's class; after any sequence of [add],
    [remove], [move] and [draw] calls, on any receivers, the node, unless a
    [remove] destroyed it, still answers the same alternative; and only a
    [remove] can destroy it. *)
Theorem kind_is_fixed fuel ops s s' p o :
  heap s !! p = Some o →
  for_each (perform fuel) ops s = Returned tt s' →
  ∃ v, Type_ p s = Returned v s
    ∧ v = (if is_leaf o then holds_Leaf p else holds_Compound p)
    ∧ (is_Some (heap s' !! p) → Type_ p s' = Returned v s')
    ∧ (Forall destroys_nothing ops → Type_ p s' = Returned v s').
Proof.
  intros Hp Hops. eexists. split_and!; [by apply Type__live|done|..].
  - intros [o' Hp'].
    destruct (keeps_performs _ _ _ _ Hops p o' Hp') as (o0 & Hp0 & Hk).
    rewrite (Type__live _ _ _ Hp'). simplify_eq. by rewrite Hk.
  - intros Hall.
    destruct (stays_for_each _ _ _ _ _ (stays_perform fuel) Hall Hops p o Hp)
      as [o' Hp'].
    destruct (keeps_performs _ _ _ _ Hops p o' Hp') as (o0 & Hp0 & Hk).
    rewrite (Type__live _ _ _ Hp'). simplify_eq. by rewrite Hk.
Qed.

Lemma kind_is_fixed_witness :
  let s := mkState (<[1%positive := CompoundGraphic [2%positive]]>
                      (<[2%positive := Dot 10 20]>
                         (<[3%positive := Circle 5 5 3]> ∅))) "" in
  let ops := [call_add 1 3; call_move 1 7 8; call_draw 1; call_remove 1 2;
              call_move 3 0 0] in
  ∃ s', for_each (perform 2) ops s = Returned tt s'
    ∧ Type_ 1 s = Returned (holds_Compound 1) s
    ∧ Type_ 1 s' = Returned (holds_Compound 1) s'
    ∧ Type_ 3 s = Returned (holds_Leaf 3) s
    ∧ Type_ 3 s' = Returned (holds_Leaf 3) s'.
Proof.
  intros s ops. eexists. split; [vm_compute; reflexivity|].
  match goal with |- Type_ _ _ = _ ∧ Type_ _ ?t = _ ∧ _ => set (s' := t) end.
  assert (for_each (perform 2) ops s = Returned tt s') as Hops
    by (vm_compute; reflexivity).
  destruct (kind_is_fixed 2 ops s s' 1%positive _ eq_refl Hops)
    as (v1 & Hv1 & -> & Hv1' & _).
  destruct (kind_is_fixed 2 ops s s' 3%positive _ eq_refl Hops)
    as (v3 & Hv3 & -> & Hv3' & _).
  split_and!; [exact Hv1|apply Hv1'|exact Hv3|apply Hv3'];
    eexists; vm_compute; reflexivity.
Defined.

(** ** C7: scenario A *)

(** C7, as stated, fails on the wording of the descriptions: what [draw]
    writes in scenario A is not "Dot(10,20)" followed by "Circle(5,5,r=3)";
    neither string occurs in the output, nor does the radius. *)
Lemma scenario_A_wording :
  ∃ root raw_d s s',
    scenario_A boot = Returned (root, raw_d) s
    ∧ draw 2 root s = Returned tt s'
    ∧ cout s' ≠ "Dot(10,20)" +:+ "Circle(5,5,r=3)"
    ∧ String.index 0 "Dot(10,20)" (cout s') = None
    ∧ String.index 0 "Circle(5,5,r=3)" (cout s') = None
    ∧ String.index 0 "3" (cout s') = None.
Proof.
  eexists _, _, _, _. split; [vm_compute; reflexivity|].
  split; [vm_compute; reflexivity|].
  split; [discriminate|]. split_and!; reflexivity.
Qed.

(** C7 (amended): in scenario A, [draw] on the root writes the line of the
    dot, "Drawing Dot, x: 10, y: 20", then the line of the circle,
    "Drawing Circle, x: 5, y: 5" (the radius is not written); after
    [remove] with the address kept for the dot, [draw] on the root writes
    the line of the circle only.  [main], which runs these steps, returns 0
    with the two headings and these lines written. *)
Theorem scenario_A_draws :
  ∃ root raw_d s,
    scenario_A boot = Returned (root, raw_d) s
    ∧ ∀ fuel,
        draw (S (S fuel)) root s
        = Returned tt (put ("Drawing Dot, x: 10, y: 20" +:+ nl +:+
                            "Drawing Circle, x: 5, y: 5" +:+ nl) s)
        ∧ (∃ s', remove (S fuel) root raw_d s = Returned tt s'
             ∧ heap s' !! raw_d = None
             ∧ draw (S (S fuel)) root s'
               = Returned tt (put ("Drawing Circle, x: 5, y: 5" +:+ nl) s'))
        ∧ main (S (S fuel)) boot
          = Returned 0 (mkState ∅
              ("Before draw:" +:+ nl +:+
               "Drawing Dot, x: 10, y: 20" +:+ nl +:+
               "Drawing Circle, x: 5, y: 5" +:+ nl +:+
               "After removal:" +:+ nl +:+
               "Drawing Circle, x: 5, y: 5" +:+ nl)).
Proof.
  eexists _, _, _. split; [vm_compute; reflexivity|]. intros fuel.
  split_and!; [vm_compute; reflexivity| |vm_compute; reflexivity].
  eexists. split_and!; vm_compute; reflexivity.
Qed.

(** ** C8: scenario B *)

(** C8: in scenario B, whatever leaf at (0, 0) the sub-container holds,
    [move(5, 5)] on the root returns, the leaf then reports (5, 5), and
    [draw] on the root writes the line of that leaf at (5, 5). *)
Theorem scenario_B_moves_leaf leaf :
  position leaf = Some (0, 0) →
  ∃ root n s,
    scenario_B leaf boot = Returned (root, n) s
    ∧ under (heap s) root n ∧ ¬ child_of (heap s) root n
    ∧ reported s n = Some (0, 0)
    ∧ ∀ fuel, ∃ s',
        move (3 + fuel) root 5 5 s = Returned tt s'
        ∧ reported s' n = Some (5, 5)
        ∧ draw (3 + fuel) root s'
          = Returned tt (put (line (place 5 5 leaf)) s').
Proof.
  intros Hpos.
  assert (under (<[1%positive := CompoundGraphic [2%positive]]>
                   (<[3%positive := leaf]>
                      (<[2%positive := CompoundGraphic [3%positive]]>
                         (<[1%positive := CompoundGraphic []]> ∅)))) 1 3
          ∧ ¬ child_of (<[1%positive := CompoundGraphic [2%positive]]>
                   (<[3%positive := leaf]>
                      (<[2%positive := CompoundGraphic [3%positive]]>
                         (<[1%positive := CompoundGraphic []]> ∅)))) 1 3)
    as [Hu Hnc].
  { split.
    - eapply under_deeper; [|apply under_child].
      + exists [2%positive]. split; [apply lookup_insert_eq|left].
      + exists [3%positive]. split; [|left].
        rewrite lookup_insert_ne, lookup_insert_ne by done.
        apply lookup_insert_eq.
    - intros (cs & Hcs & Hin). rewrite lookup_insert_eq in Hcs.
      injection Hcs as <-. apply list_elem_of_singleton in Hin. done. }
  destruct leaf as [x y|x y r|cs]; simpl in Hpos; simplify_eq.
  - exists 1%positive, 3%positive. eexists.
    split; [vm_compute; reflexivity|].
    split_and!; [exact Hu|exact Hnc|reflexivity|]. intros fuel. eexists.
    split_and!; vm_compute; reflexivity.
  - exists 1%positive, 3%positive. eexists.
    split; [vm_compute; reflexivity|].
    split_and!; [exact Hu|exact Hnc|reflexivity|]. intros fuel. eexists.
    split_and!; vm_compute; reflexivity.
Qed.

Lemma scenario_B_moves_leaf_witness :
  ∃ root n s,
    scenario_B (Dot 0 0) boot = Returned (root, n) s
    ∧ under (heap s) root n ∧ ¬ child_of (heap s) root n
    ∧ reported s n = Some (0, 0)
    ∧ ∀ fuel, ∃ s',
        move (3 + fuel) root 5 5 s = Returned tt s'
        ∧ reported s' n = Some (5, 5)
        ∧ draw (3 + fuel) root s'
          = Returned tt (put ("Drawing Dot, x: 5, y: 5" +:+ nl) s').
Proof. exact (scenario_B_moves_leaf (Dot 0 0) eq_refl). Defined.

(** * Further properties of the code *)

(** ** When a traversal returns *)

Lemma for_each_inv {A} (body : A → M unit) a l s s' :
  for_each body (a :: l) s = Returned tt s' →
  ∃ s1, body a s = Returned tt s1 ∧ for_each body l s1 = Returned tt s'.
Proof.
  simpl. unfold bind at 1.
  destruct (body a s) as [[] s1| | | |]; try done. intros Hl. by exists s1.
Qed.

Lemma draw_heap fuel p s s' :
  draw fuel p s = Returned tt s' → heap s' = heap s.
Proof.
  revert p s s'. induction fuel as [|fuel IH]; intros p s s'; [done|].
  rewrite draw_unfold. unfold bind, deref.
  destruct (heap s !! p) as [[a b|a b r|cs]|]; try done;
    [by intros [= <-]..|].
  revert s. induction cs as [|c cs IHcs]; intros s.
  - by intros [= <-].
  - intros (s1 & Hc & Hcs)%for_each_inv.
    rewrite (IHcs _ Hcs). by eapply IH.
Qed.

Lemma draw_returns_bounded fuel p s s' :
  draw fuel p s = Returned tt s' → bounded fuel (heap s) p.
Proof.
  revert p s s'. induction fuel as [|fuel IH]; intros p s s'; [done|].
  rewrite draw_unfold. unfold bind, deref, bounded.
  destruct (heap s !! p) as [[a b|a b r|cs]|] eqn:Hp; try done.
  - intros _. simpl. rewrite Hp. by eexists.
  - intros _. simpl. rewrite Hp. by eexists.
  - intros Hcs. rewrite (nodes_compound _ _ _ _ Hp).
    assert (is_Some (mapM (nodes fuel (heap s)) cs)) as [ls ->];
      [|by eexists].
    clear Hp. revert s Hcs. induction cs as [|c cs IHcs]; intros s Hcs.
    + by eexists.
    + apply for_each_inv in Hcs as (s1 & Hc & Hcs).
      destruct (IH _ _ _ Hc) as [lc Hlc].
      destruct (IHcs _ Hcs) as [ls Hls].
      rewrite (draw_heap _ _ _ _ Hc) in Hls.
      exists (lc :: ls). apply mapM_Some. constructor; [done|].
      by apply mapM_Some.
Qed.

(** [move] never touches a child sequence. *)
Lemma move_links fuel p x y s s' :
  move fuel p x y s = Returned tt s' →
  ∀ q, links <$> heap s' !! q = links <$> heap s !! q.
Proof.
  revert p s s'. induction fuel as [|fuel IH]; intros p s s'; [done|].
  rewrite move_unfold. unfold bind, deref.
  destruct (heap s !! p) as [[a b|a b r|cs]|] eqn:Hp; try done.
  - intros [= <-] q. simpl. rewrite lookup_insert. case_decide; [|done].
    subst. by rewrite Hp.
  - intros [= <-] q. simpl. rewrite lookup_insert. case_decide; [|done].
    subst. by rewrite Hp.
  - clear Hp. revert s. induction cs as [|c cs IHcs]; intros s.
    + by intros [= <-].
    + intros (s1 & Hc & Hcs)%for_each_inv q.
      by rewrite (IHcs _ Hcs q), (IH _ _ _ Hc q).
Qed.

Lemma move_returns_bounded fuel p x y s s' :
  move fuel p x y s = Returned tt s' → bounded fuel (heap s) p.
Proof.
  revert p s s'. induction fuel as [|fuel IH]; intros p s s'; [done|].
  rewrite move_unfold. unfold bind, deref, bounded.
  destruct (heap s !! p) as [[a b|a b r|cs]|] eqn:Hp; try done.
  - intros _. simpl. rewrite Hp. by eexists.
  - intros _. simpl. rewrite Hp. by eexists.
  - intros Hcs. rewrite (nodes_compound _ _ _ _ Hp).
    assert (is_Some (mapM (nodes fuel (heap s)) cs)) as [ls ->];
      [|by eexists].
    clear Hp. revert s Hcs. induction cs as [|c cs IHcs]; intros s Hcs.
    + by eexists.
    + apply for_each_inv in Hcs as (s1 & Hc & Hcs).
      destruct (IH _ _ _ Hc) as [lc Hlc].
      destruct (IHcs _ Hcs) as [ls Hls]. apply mapM_Some in Hls.
      exists (lc :: ls). apply mapM_Some. constructor; [done|].
      eapply Forall2_impl; [exact Hls|]. intros c' lc' Hc'.
      apply (nodes_shape _ _ _ _ _ Hc'). intros q _.
      symmetry. by eapply move_links.
Qed.

Lemma bounded_reach fuel (h : gmap positive Graphic) C q :
  bounded fuel h C → q = C ∨ under h C q → bounded fuel h q.
Proof.
  intros Hb [->|Hu]; [done|]. destruct fuel as [|fuel]; [by destruct Hb|].
  destruct (under_bounded _ _ _ _ Hb Hu) as [l Hl].
  exists l. by apply nodes_mono.
Qed.

(** X8: when some node at or under C is under itself, or is a dangling
    pointer, neither [draw] nor [move] on C returns, however deep the
    recursion may go. *)
Theorem traversal_needs_sound_structure fuel s C q :
  q = C ∨ under (heap s) C q →
  under (heap s) q q ∨ heap s !! q = None →
  (∀ s', draw fuel C s ≠ Returned tt s')
  ∧ (∀ x y s', move fuel C x y s ≠ Returned tt s').
Proof.
  intros Hq Hbad.
  assert (¬ bounded fuel (heap s) C) as Hnb.
  { intros Hb. pose proof (bounded_reach _ _ _ _ Hb Hq) as Hbq.
    destruct Hbad as [Hcyc|Hdead].
    - by apply (bounded_acyclic _ _ _ Hbq).
    - destruct Hbq as [l Hl]. destruct (nodes_live _ _ _ _ Hl) as [o Ho].
      congruence. }
  split.
  - intros s' Hd. apply Hnb. by eapply draw_returns_bounded.
  - intros x y s' Hm. apply Hnb. by eapply move_returns_bounded.
Qed.

Lemma traversal_needs_sound_structure_witness :
  let s := mkState (<[1%positive := CompoundGraphic [2%positive]]>
                      (<[2%positive := CompoundGraphic [4%positive; 3%positive]]>
                         (<[3%positive := CompoundGraphic [2%positive]]>
                            (<[4%positive := Dot 1 1]> ∅)))) "" in
  (∀ s', draw 7 1 s ≠ Returned tt s')
  ∧ (∀ x y s', move 7 1 x y s ≠ Returned tt s').
Proof.
  intros s. apply (traversal_needs_sound_structure 7 s 1%positive 3%positive).
  - right. eapply under_deeper; [|apply under_child].
    + exists [2%positive]. split; [reflexivity|left].
    + exists [4%positive; 3%positive]. split; [reflexivity|right; left].
  - left. eapply under_deeper; [|apply under_child].
    + exists [2%positive]. split; [reflexivity|left].
    + exists [4%positive; 3%positive]. split; [reflexivity|right; left].
Defined.

(** ** [draw] and [move] together *)

(** X1: on a bounded structure [draw] returns, leaves every object as it
    was, and appends to the output a text that depends on the objects
    alone, not on what was written before. *)
Theorem draw_only_writes fuel s C :
  bounded fuel (heap s) C →
  ∃ out, ∀ written,
    draw fuel C (mkState (heap s) written)
    = Returned tt (mkState (heap s) (written +:+ out)).
Proof.
  intros [l Hl]. exists (rendering (heap s) l). intros written.
  by rewrite (draw_listing _ _ (mkState (heap s) written) l).
Qed.

Lemma draw_only_writes_witness :
  let h := <[1%positive := CompoundGraphic [2%positive; 3%positive]]>
             (<[2%positive := Dot 10 20]>
                (<[3%positive := Circle 5 5 3]> ∅)) in
  ∃ out, ∀ written,
    draw 2 1 (mkState h written) = Returned tt (mkState h (written +:+ out)).
Proof.
  intros h. apply (draw_only_writes 2 (mkState h "") 1%positive).
  eexists. vm_compute. reflexivity.
Defined.

Lemma place_all_last a b c d l (h : gmap positive Graphic) :
  place_all c d l (place_all a b l h) = place_all c d l h.
Proof.
  apply map_eq. intros q. rewrite !lookup_place_all.
  case_decide; [|done]. destruct (h !! q); simpl; [|done].
  by rewrite place_last.
Qed.

(** X2: on a bounded structure, [move(a, b)] followed by [move(c, d)] on
    the same node leaves exactly the state [move(c, d)] alone leaves, for a
    container as for a leaf; in particular [move] twice with the same
    arguments is [move] once. *)
Theorem move_overrides_move fuel s C a b c d :
  bounded fuel (heap s) C →
  (∃ s', move fuel C c d s = Returned tt s')
  ∧ (move fuel C a b ;;; move fuel C c d) s = move fuel C c d s
  ∧ (move fuel C c d ;;; move fuel C c d) s = move fuel C c d s.
Proof.
  intros [l Hl].
  assert (∀ a b, (move fuel C a b ;;; move fuel C c d) s = move fuel C c d s)
    as Htwice.
  { intros a' b'.
    rewrite (bind_Returned _ _ _ _ _ (move_listing _ _ a' b' _ _ Hl)).
    rewrite (move_listing _ _ c d s l Hl).
    rewrite (move_listing _ _ c d _ l) by (simpl; by apply nodes_place_all).
    unfold set_heap. simpl. by rewrite place_all_last. }
  split_and!; [|apply Htwice..]. eexists. by apply move_listing.
Qed.

Lemma move_overrides_move_witness :
  let s := mkState (<[1%positive := CompoundGraphic [2%positive; 3%positive]]>
                      (<[2%positive := CompoundGraphic [4%positive]]>
                         (<[3%positive := Circle 5 5 3]>
                            (<[4%positive := Dot 10 20]> ∅)))) "" in
  (∃ s', move 3 1 8 9 s = Returned tt s')
  ∧ (move 3 1 (-1) 2 ;;; move 3 1 8 9) s = move 3 1 8 9 s
  ∧ (move 3 1 8 9 ;;; move 3 1 8 9) s = move 3 1 8 9 s.
Proof.
  intros s. apply (move_overrides_move 3 s 1%positive (-1) 2 8 9).
  eexists. vm_compute. reflexivity.
Defined.

Lemma rendering_placed x y l' l (h : gmap positive Graphic) :
  (∀ q, q ∈ l → q ∈ l') →
  rendering (place_all x y l' h) l
  = joined ((fun q => from_option (fun o => line (place x y o)) "" (h !! q))
              <$> l).
Proof.
  induction l as [|q l IH]; intros Hin; [done|].
  change (rendering (place_all x y l' h) (q :: l))
    with (from_option line "" (place_all x y l' h !! q)
          +:+ rendering (place_all x y l' h) l).
  rewrite IH by (intros q' Hq'; apply Hin; by right).
  rewrite lookup_place_all, decide_True by (apply Hin; left).
  rewrite fmap_cons.
  match goal with
  | |- _ = joined (?a :: ?b) => change (joined (a :: b)) with (a +:+ joined b)
  end.
  by destruct (h !! q).
Qed.

(** X9: on a bounded structure, [move(x, y)] followed by [draw] on the same
    node returns and writes, for the objects visited in order, the line of
    each object with its position replaced by (x, y): every line written
    shows x and y, whatever the positions were. *)
Theorem draw_after_move fuel s C x y :
  bounded fuel (heap s) C →
  ∃ l s',
    nodes fuel (heap s) C = Some l
    ∧ (move fuel C x y ;;; draw fuel C) s = Returned tt s'
    ∧ cout s'
      = cout s +:+
        joined ((fun q => from_option (fun o => line (place x y o)) ""
                            (heap s !! q)) <$> l)
    ∧ (∀ o, is_leaf o = true →
         ∃ name, line (place x y o)
                 = "Drawing " +:+ name +:+ ", x: " +:+ show x +:+
                   ", y: " +:+ show y +:+ nl).
Proof.
  intros [l Hl]. exists l. eexists. split; [done|]. split_and!.
  - rewrite (bind_Returned _ _ _ _ _ (move_listing _ _ x y _ _ Hl)).
    by rewrite (draw_listing _ _ _ l) by (simpl; by apply nodes_place_all).
  - simpl. by rewrite rendering_placed.
  - intros [a b|a b r|cs] Ho; [by exists "Dot"|by exists "Circle"|done].
Qed.

Lemma draw_after_move_witness :
  let s := mkState (<[1%positive := CompoundGraphic [2%positive; 3%positive]]>
                      (<[2%positive := Dot 10 20]>
                         (<[3%positive := Circle 5 5 3]> ∅))) "" in
  ∃ s', (move 2 1 8 9 ;;; draw 2 1) s = Returned tt s'
    ∧ cout s' = "Drawing Dot, x: 8, y: 9" +:+ nl +:+
                "Drawing Circle, x: 8, y: 9" +:+ nl.
Proof.
  intros s.
  destruct (draw_after_move 2 s 1%positive 8 9) as (l & s' & Hl & Hrun & Hout & _).
  { eexists. vm_compute. reflexivity. }
  exists s'. split; [exact Hrun|].
  assert (l = [1; 2; 3]%positive) as ->.
  { vm_compute in Hl. by injection Hl as <-. }
  rewrite Hout. vm_compute. reflexivity.
Defined.

(** ** The destructor and [remove] *)

Lemma lookup_delete_listing fuel (h h' : gmap positive Graphic) p l q :
  nodes fuel h p = Some l →
  (q = p ∨ under h p q → delete_all l h' !! q = None)
  ∧ (q ≠ p → ¬ under h p q → delete_all l h' !! q = h' !! q).
Proof.
  intros Hl. pose proof (nodes_under _ _ _ _ Hl q) as Hq.
  rewrite lookup_delete_all. split.
  - intros Hu. by rewrite decide_True by by apply Hq.
  - intros Hne Hnu. rewrite decide_False; [done|].
    intros [?|?]%Hq; [by apply Hne|by apply Hnu].
Qed.

(** X3: deleting a tree (an object all of whose descendants have a single
    owner) returns, releases the object and everything under it, and leaves
    every other object and the output as they were. *)
Theorem destructor_frees_the_tree fuel s p :
  tree_at fuel (heap s) p →
  ∃ s', destroy fuel p s = Returned tt s'
    ∧ (∀ q, q = p ∨ under (heap s) p q → heap s' !! q = None)
    ∧ (∀ q, q ≠ p → ¬ under (heap s) p q → heap s' !! q = heap s !! q)
    ∧ cout s' = cout s.
Proof.
  intros (l & Hl & Hnd). eexists. split; [by apply destroy_listing|].
  split_and!; [| |done]; intros q; simpl;
    by apply (lookup_delete_listing _ _ _ _ _ _ Hl).
Qed.

Lemma destructor_frees_the_tree_witness :
  let s := mkState (<[1%positive := CompoundGraphic [2%positive; 3%positive]]>
                      (<[2%positive := CompoundGraphic [4%positive]]>
                         (<[3%positive := Circle 5 5 3]>
                            (<[4%positive := Dot 10 20]>
                               (<[5%positive := Dot 0 0]> ∅))))) "" in
  ∃ s', destroy 3 2 s = Returned tt s'
    ∧ (∀ q, q = 2%positive ∨ under (heap s) 2 q → heap s' !! q = None)
    ∧ (∀ q, q ≠ 2%positive → ¬ under (heap s) 2 q
         → heap s' !! q = heap s !! q)
    ∧ cout s' = cout s.
Proof.
  intros s. apply (destructor_frees_the_tree 3 s 2%positive).
  exists [2; 4]%positive. split; [vm_compute; reflexivity|compute_done].
Defined.

(** X4: in a tree, [remove] with the address of a child returns; the child
    sequence loses that one entry and keeps the others in their order; the
    child and everything under it are released; every other object, a
    sibling with equal contents included, and the output are as before. *)
Theorem remove_frees_the_child fuel s C children h :
  heap s !! C = Some (CompoundGraphic children) →
  tree_at (S fuel) (heap s) C →
  h ∈ children →
  ∃ s' before after,
    remove fuel C h s = Returned tt s'
    ∧ children = before ++ h :: after
    ∧ heap s' !! C = Some (CompoundGraphic (before ++ after))
    ∧ (h ∉ before ++ after)
    ∧ (∀ q, q = h ∨ under (heap s) h q → heap s' !! q = None)
    ∧ (∀ q, q ≠ C → q ≠ h → ¬ under (heap s) h q →
         heap s' !! q = heap s !! q)
    ∧ cout s' = cout s.
Proof.
  intros HC (l & Hl & Hnd) Hin.
  destruct (remove_present _ _ _ _ _ _ HC Hl Hnd Hin)
    as (before & after & ln & -> & Hgone & Hln & HCn & Hrm).
  eexists _, before, after. split; [exact Hrm|]. simpl.
  split_and!; [done| |done| | |done].
  - rewrite lookup_delete_all, decide_False by done.
    by rewrite lookup_insert_eq.
  - intros q Hq. by apply (lookup_delete_listing _ _ _ _ _ _ Hln).
  - intros q HqC Hqh Hqu.
    rewrite (proj2 (lookup_delete_listing fuel (heap s)
                (<[C := CompoundGraphic (before ++ after)]> (heap s))
                h ln q Hln)) by done.
    by rewrite lookup_insert_ne.
Qed.

Lemma remove_frees_the_child_witness :
  let s := mkState (<[1%positive := CompoundGraphic [2; 3; 5]%positive]>
                      (<[2%positive := Dot 1 1]>
                         (<[3%positive := CompoundGraphic [4%positive]]>
                            (<[4%positive := Circle 5 5 3]>
                               (<[5%positive := Dot 1 1]> ∅))))) "" in
  ∃ s' before after,
    remove 2 1 3 s = Returned tt s'
    ∧ [2; 3; 5]%positive = before ++ 3%positive :: after
    ∧ heap s' !! 1%positive = Some (CompoundGraphic (before ++ after))
    ∧ (3%positive ∉ before ++ after)
    ∧ (∀ q, q = 3%positive ∨ under (heap s) 3 q → heap s' !! q = None)
    ∧ (∀ q, q ≠ 1%positive → q ≠ 3%positive → ¬ under (heap s) 3 q →
         heap s' !! q = heap s !! q)
    ∧ cout s' = cout s.
Proof.
  intros s. apply (remove_frees_the_child 2 s 1%positive).
  - reflexivity.
  - exists [1; 2; 3; 4; 5]%positive. split; [vm_compute; reflexivity|compute_done].
  - compute_done.
Defined.

Lemma find_child_app child before after :
  child ∉ before →
  find_child child (before ++ child :: after) = Some (before, after).
Proof.
  induction before as [|c before IH]; simpl.
  - intros _. by rewrite decide_True.
  - intros [Hne Hb]%not_elem_of_cons.
    rewrite decide_False by done. by rewrite IH.
Qed.

(** X6: adding a tree that is not yet a child and does not hold the
    container, then removing it by its address, returns; the container's
    child sequence is what it was, the added tree is released (the
    container owned it), and every other object and the output are as
    before. *)
Theorem add_then_remove fuel s C children n :
  heap s !! C = Some (CompoundGraphic children) →
  n ∉ children →
  tree_at fuel (heap s) n → n ≠ C → ¬ under (heap s) n C →
  ∃ s', (add C n ;;; remove fuel C n) s = Returned tt s'
    ∧ heap s' !! C = Some (CompoundGraphic children)
    ∧ (∀ q, q = n ∨ under (heap s) n q → heap s' !! q = None)
    ∧ (∀ q, q ≠ n → ¬ under (heap s) n q → heap s' !! q = heap s !! q)
    ∧ cout s' = cout s.
Proof.
  intros HC Hn (ln & Hln & Hnd) HnC Hnu.
  assert ((add C n ;;; remove fuel C n) s
          = Returned tt (set_heap (delete_all ln (heap s)) s)) as Hrun.
  { rewrite (bind_Returned _ _ _ _ _ (add_container _ _ _ n HC)).
    unfold remove.
    erewrite bind_Returned
      by (apply deref_live; simpl; apply lookup_insert_eq).
    cbv beta iota.
    rewrite (find_child_app _ _ [] Hn). unfold bind at 1. unfold store.
    simpl. rewrite insert_insert_eq, app_nil_r, (insert_id _ _ _ HC).
    rewrite (destroy_listing _ _ _ ln) by done. done. }
  eexists. split; [exact Hrun|]. simpl.
  assert (∀ q, q ≠ n → ¬ under (heap s) n q
               → delete_all ln (heap s) !! q = heap s !! q) as Hrest.
  { intros q. by apply (lookup_delete_listing _ _ _ _ _ _ Hln). }
  split_and!; [|intros q; by apply (lookup_delete_listing _ _ _ _ _ _ Hln)
              |done|done].
  rewrite Hrest; [done| |done]. by intros ->.
Qed.

Lemma add_then_remove_witness :
  let s := mkState (<[1%positive := CompoundGraphic [2%positive]]>
                      (<[2%positive := Dot 10 20]>
                         (<[3%positive := CompoundGraphic [4%positive]]>
                            (<[4%positive := Circle 5 5 3]> ∅)))) "" in
  ∃ s', (add 1 3 ;;; remove 2 1 3) s = Returned tt s'
    ∧ heap s' !! 1%positive = Some (CompoundGraphic [2%positive])
    ∧ (∀ q, q = 3%positive ∨ under (heap s) 3 q → heap s' !! q = None)
    ∧ (∀ q, q ≠ 3%positive → ¬ under (heap s) 3 q
         → heap s' !! q = heap s !! q)
    ∧ cout s' = cout s.
Proof.
  intros s. apply (add_then_remove 2 s 1%positive [2%positive] 3%positive).
  - reflexivity.
  - compute_done.
  - exists [3; 4]%positive. split; [vm_compute; reflexivity|compute_done].
  - done.
  - apply (not_under_listing 2 _ _ [3; 4]%positive).
    + vm_compute. reflexivity.
    + compute_done.
Defined.

(** X7: nothing guards against handing the same leaf to [add] twice.  The
    container then lists it twice; the first [remove] erases one entry and
    deletes the leaf, leaving the other entry dangling; a second [remove]
    finds that entry and deletes the dead object again, where on a tree it
    would have changed nothing. *)
Theorem double_insertion_double_deletes fuel s C children n o :
  heap s !! C = Some (CompoundGraphic children) →
  n ∉ children →
  heap s !! n = Some o → is_leaf o = true →
  ∃ s2 s3,
    (add C n ;;; add C n) s = Returned tt s2
    ∧ heap s2 !! C = Some (CompoundGraphic (children ++ [n; n]))
    ∧ remove (S fuel) C n s2 = Returned tt s3
    ∧ heap s3 !! C = Some (CompoundGraphic (children ++ [n]))
    ∧ heap s3 !! n = None
    ∧ remove (S fuel) C n s3 = Dangling.
Proof.
  intros HC Hn Ho Hleaf.
  assert (n ≠ C) as HnC by (intros ->; rewrite HC in Ho; by simplify_eq).
  assert (∀ fuel' (s1 : state) o1, heap s1 !! n = Some o1 → is_leaf o1 = true →
            destroy (S fuel') n s1
            = Returned tt (set_heap (delete n (heap s1)) s1)) as Hdel.
  { intros fuel' s1 o1 Ho1 Hl1. rewrite destroy_unfold.
    rewrite (bind_Returned _ _ _ _ _ (deref_live _ _ _ Ho1)).
    by destruct o1. }
  eexists _, _. split_and!.
  - rewrite (bind_Returned _ _ _ _ _ (add_container _ _ _ n HC)).
    apply add_container. simpl. apply lookup_insert_eq.
  - simpl. by rewrite lookup_insert_eq, <- app_assoc.
  - unfold remove.
    erewrite bind_Returned
      by (apply deref_live; simpl; apply lookup_insert_eq).
    cbv beta iota. rewrite <- app_assoc. change ([n] ++ [n]) with (n :: [n]).
    rewrite (find_child_app _ _ [n] Hn). unfold bind at 1. unfold store.
    erewrite Hdel; [done| |exact Hleaf].
    simpl. by rewrite !lookup_insert_ne.
  - simpl. rewrite lookup_delete_ne by done. by rewrite lookup_insert_eq.
  - simpl. by rewrite lookup_delete_eq.
  - unfold remove.
    erewrite bind_Returned.
    2:{ apply deref_live. simpl. rewrite lookup_delete_ne by done.
        apply lookup_insert_eq. }
    cbv beta iota.
    rewrite (find_child_app _ _ [] Hn). unfold bind at 1. unfold store.
    rewrite destroy_unfold. unfold bind, deref. simpl.
    rewrite lookup_insert_ne by done. by rewrite lookup_delete_eq.
Qed.

Lemma double_insertion_double_deletes_witness :
  let s := mkState (<[1%positive := CompoundGraphic [2%positive]]>
                      (<[2%positive := Dot 10 20]>
                         (<[3%positive := Circle 5 5 3]> ∅))) "" in
  ∃ s2 s3,
    (add 1 3 ;;; add 1 3) s = Returned tt s2
    ∧ heap s2 !! 1%positive
      = Some (CompoundGraphic ([2%positive] ++ [3%positive; 3%positive]))
    ∧ remove 1 1 3 s2 = Returned tt s3
    ∧ heap s3 !! 1%positive
      = Some (CompoundGraphic ([2%positive] ++ [3%positive]))
    ∧ heap s3 !! 3%positive = None
    ∧ remove 1 1 3 s3 = Dangling.
Proof.
  intros s.
  apply (double_insertion_double_deletes 0 s 1%positive [2%positive]
           3%positive (Circle 5 5 3)).
  - reflexivity.
  - compute_done.
  - reflexivity.
  - reflexivity.
Defined.

(** ** What [remove] leaves behind *)

Lemma listing_transfer fuel (h h' : gmap positive Graphic) children ls :
  Forall2 (fun c lc => nodes fuel h c = Some lc) children ls →
  (∀ q, q ∈ mjoin ls → h' !! q = h !! q) →
  Forall2 (fun c lc => nodes fuel h' c = Some lc) children ls.
Proof.
  induction 1 as [|c lc cs ls Hc Hcs IH]; intros Hag; [constructor|].
  change (mjoin (lc :: ls)) with (lc ++ mjoin ls) in Hag. constructor.
  - apply (nodes_shape _ _ _ _ _ Hc). intros q Hq.
    rewrite Hag; [done|]. apply elem_of_app. by left.
  - apply IH. intros q Hq. apply Hag, elem_of_app. by right.
Qed.

Lemma rendering_agree (h h' : gmap positive Graphic) l :
  (∀ q, q ∈ l → h' !! q = h !! q) → rendering h' l = rendering h l.
Proof.
  induction l as [|q l IH]; intros Hag; [done|]. simpl.
  rewrite IH by (intros q' Hq'; apply Hag; by right).
  by rewrite Hag by left.
Qed.

Lemma remove_tree fuel s C before h after ls :
  heap s !! C = Some (CompoundGraphic (before ++ h :: after)) →
  Forall2 (fun c lc => nodes fuel (heap s) c = Some lc)
    (before ++ h :: after) ls →
  NoDup (C :: mjoin ls) →
  ∃ lsb lh lsa,
    ls = lsb ++ lh :: lsa
    ∧ Forall2 (fun c lc => nodes fuel (heap s) c = Some lc) before lsb
    ∧ nodes fuel (heap s) h = Some lh
    ∧ Forall2 (fun c lc => nodes fuel (heap s) c = Some lc) after lsa
    ∧ (h ∉ before ++ after) ∧ (C ∉ lh)
    ∧ (∀ q, q ∈ mjoin (lsb ++ lsa) → (q ∉ lh) ∧ q ≠ C)
    ∧ NoDup (C :: mjoin (lsb ++ lsa))
    ∧ remove fuel C h s
      = Returned tt
          (set_heap (delete_all lh
             (<[C := CompoundGraphic (before ++ after)]> (heap s))) s).
Proof.
  intros HC Hls Hnd.
  pose proof (listing_NoDup _ _ _ _ Hls (proj2 (proj1 (NoDup_cons _ _) Hnd)))
    as Hcs.
  apply Forall2_app_inv_l in Hls as (lsb & ls2 & Hb & H2 & ->).
  apply Forall2_cons_inv_l in H2 as (lh & lsa & Hh & Ha & ->).
  apply NoDup_cons in Hnd as [HCl Hnd].
  rewrite join_app in HCl, Hnd.
  change (mjoin (lh :: lsa)) with (lh ++ mjoin lsa) in HCl, Hnd.
  apply NoDup_app in Hnd as (Hndb & Hdisb & Hnd).
  apply NoDup_app in Hnd as (Hndh & Hdish & Hnda).
  apply not_elem_of_app in HCl as [HCb HCl].
  apply not_elem_of_app in HCl as [HCh HCa].
  apply NoDup_app in Hcs as (_ & Hhb & [Hha _]%NoDup_cons).
  assert (h ∉ before) as Hnb by (intros Hin; apply (Hhb h Hin); left).
  exists lsb, lh, lsa. split_and!; try done.
  - apply not_elem_of_app. by split.
  - intros q. rewrite join_app. intros [Hq|Hq]%elem_of_app; split.
    + intros Hqh. apply (Hdisb q Hq), elem_of_app. by left.
    + by intros ->.
    + intros Hqh. by apply (Hdish q Hqh).
    + by intros ->.
  - apply NoDup_cons. rewrite join_app. split.
    + apply not_elem_of_app. by split.
    + apply NoDup_app. split_and!; [done| |done].
      intros q Hq Hq'. apply (Hdisb q Hq), elem_of_app. by right.
  - unfold remove. rewrite (bind_Returned _ _ _ _ _ (deref_live _ _ _ HC)).
    cbv beta iota. rewrite (find_child_app _ _ _ Hnb).
    unfold bind at 1. unfold store.
    rewrite (destroy_listing _ _ _ lh); [done| |done].
    simpl. apply (nodes_shape _ _ _ _ _ Hh). intros q Hq.
    rewrite lookup_insert_ne; [done|]. by intros <-.
Qed.

(** X10: in a tree whose root C holds [before], then h, then [after]:
    [draw] on C writes what drawing [before] writes, then what drawing h
    writes, then what drawing [after] writes; once h is removed, [draw] on C
    writes the first and the last of these and nothing else. *)
Theorem draw_after_remove fuel s C before h after :
  heap s !! C = Some (CompoundGraphic (before ++ h :: after)) →
  tree_at (S fuel) (heap s) C →
  ∃ s1 A H B,
    for_each (draw fuel) before s = Returned tt (put A s)
    ∧ draw fuel h s = Returned tt (put H s)
    ∧ for_each (draw fuel) after s = Returned tt (put B s)
    ∧ draw (S fuel) C s = Returned tt (put (A +:+ H +:+ B) s)
    ∧ remove fuel C h s = Returned tt s1
    ∧ draw (S fuel) C s1 = Returned tt (put (A +:+ B) s1).
Proof.
  intros HC (l & Hl & Hnd).
  destruct (nodes_inv _ _ _ _ _ HC Hl) as (ls & Hls & ->).
  destruct (remove_tree _ _ _ _ _ _ _ HC Hls Hnd)
    as (lsb & lh & lsa & -> & Hb & Hh & Ha & Hgone & HCh & Hsep & Hnd' & Hrm).
  eexists _, (rendering (heap s) (mjoin lsb)), (rendering (heap s) lh),
    (rendering (heap s) (mjoin lsa)).
  split_and!; [| | | |exact Hrm|].
  - by apply (draw_children _ _ _ _ (draw_listing fuel)).
  - by apply draw_listing.
  - by apply (draw_children _ _ _ _ (draw_listing fuel)).
  - rewrite (draw_listing _ _ _ _ Hl), (rendering_cons _ _ _ _ HC).
    rewrite join_app, rendering_app.
    change (mjoin (lh :: lsa)) with (lh ++ mjoin lsa).
    by rewrite rendering_app.
  - set (h1 := delete_all lh
                 (<[C := CompoundGraphic (before ++ after)]> (heap s))).
    assert (∀ q, q ∈ mjoin (lsb ++ lsa) → h1 !! q = heap s !! q) as Hag.
    { intros q Hq. destruct (Hsep q Hq) as [Hqh HqC]. unfold h1.
      rewrite lookup_delete_all, decide_False by done.
      by rewrite lookup_insert_ne. }
    assert (h1 !! C = Some (CompoundGraphic (before ++ after))) as HC1.
    { unfold h1. rewrite lookup_delete_all, decide_False by done.
      by rewrite lookup_insert_eq. }
    assert (nodes (S fuel) h1 C = Some (C :: mjoin (lsb ++ lsa))) as Hl1.
    { rewrite (nodes_compound _ _ _ _ HC1).
      assert (mapM (nodes fuel h1) (before ++ after) = Some (lsb ++ lsa))
        as ->; [|done].
      apply mapM_Some. apply (listing_transfer _ (heap s)); [|done].
      by apply Forall2_app. }
    rewrite (draw_listing _ _ (set_heap h1 s) _ Hl1). simpl heap.
    rewrite (rendering_cons _ _ _ _ HC1).
    rewrite (rendering_agree (heap s) h1) by done.
    by rewrite join_app, rendering_app.
Qed.

Lemma draw_after_remove_witness :
  let s := mkState (<[1%positive := CompoundGraphic [2; 3; 5]%positive]>
                      (<[2%positive := Dot 1 2]>
                         (<[3%positive := CompoundGraphic [4%positive]]>
                            (<[4%positive := Circle 5 5 3]>
                               (<[5%positive := Dot 7 8]> ∅))))) "" in
  ∃ s1 A H B,
    for_each (draw 2) [2%positive] s = Returned tt (put A s)
    ∧ draw 2 3 s = Returned tt (put H s)
    ∧ for_each (draw 2) [5%positive] s = Returned tt (put B s)
    ∧ draw 3 1 s = Returned tt (put (A +:+ H +:+ B) s)
    ∧ remove 2 1 3 s = Returned tt s1
    ∧ draw 3 1 s1 = Returned tt (put (A +:+ B) s1).
Proof.
  intros s.
  apply (draw_after_remove 2 s 1%positive [2%positive] 3%positive
           [5%positive]).
  - reflexivity.
  - exists [1; 2; 3; 4; 5]%positive. split; [vm_compute; reflexivity|compute_done].
Defined.

Lemma filter_all {A} (P : A → Prop) `{∀ x, Decision (P x)} (l : list A) :
  (∀ x, x ∈ l → P x) → filter P l = l.
Proof.
  induction l as [|a l IH]; intros Hall; [done|].
  rewrite filter_cons_True by (apply Hall; left).
  by rewrite IH by (intros x Hx; apply Hall; by right).
Qed.

Lemma split_filter (h : ptr) before after :
  h ∉ before ++ after →
  filter (fun c => c ≠ h) (before ++ h :: after) = before ++ after.
Proof.
  intros [Hb Ha]%not_elem_of_app.
  rewrite filter_app, filter_cons_False by (by intros ?).
  by rewrite !filter_all by (by intros x Hx ->).
Qed.

Lemma remove_in_tree fuel s C children h l :
  heap s !! C = Some (CompoundGraphic children) →
  nodes (S fuel) (heap s) C = Some l → NoDup l → h ∈ children →
  ∃ lh l1,
    nodes fuel (heap s) h = Some lh ∧ (C ∉ lh)
    ∧ remove fuel C h s
      = Returned tt
          (set_heap (delete_all lh
             (<[C := CompoundGraphic (filter (fun c => c ≠ h) children)]>
                (heap s))) s)
    ∧ nodes (S fuel)
        (delete_all lh
           (<[C := CompoundGraphic (filter (fun c => c ≠ h) children)]>
              (heap s))) C = Some l1
    ∧ NoDup l1
    ∧ (∀ c lc, c ∈ children → c ≠ h → nodes fuel (heap s) c = Some lc →
         nodes fuel
           (delete_all lh
              (<[C := CompoundGraphic (filter (fun c => c ≠ h) children)]>
                 (heap s))) c = Some lc
         ∧ (C ∉ lc) ∧ (∀ q, q ∈ lc → q ∉ lh)).
Proof.
  intros HC Hl Hnd Hin.
  apply list_elem_of_split in Hin as (before & after & ->).
  destruct (nodes_inv _ _ _ _ _ HC Hl) as (ls & Hls & ->).
  destruct (remove_tree _ _ _ _ _ _ _ HC Hls Hnd)
    as (lsb & lh & lsa & -> & Hb & Hh & Ha & Hgone & HCh & Hsep & Hnd' & Hrm).
  rewrite (split_filter _ _ _ Hgone).
  set (h1 := delete_all lh
               (<[C := CompoundGraphic (before ++ after)]> (heap s))) in *.
  assert (∀ q, q ∈ mjoin (lsb ++ lsa) → h1 !! q = heap s !! q) as Hag.
  { intros q Hq. destruct (Hsep q Hq) as [Hqh HqC]. unfold h1.
    rewrite lookup_delete_all, decide_False by done.
    by rewrite lookup_insert_ne. }
  assert (h1 !! C = Some (CompoundGraphic (before ++ after))) as HC1.
  { unfold h1. rewrite lookup_delete_all, decide_False by done.
    by rewrite lookup_insert_eq. }
  pose proof (Forall2_app Hb Ha) as Hrest.
  exists lh, (C :: mjoin (lsb ++ lsa)). split_and!; try done.
  - rewrite (nodes_compound _ _ _ _ HC1).
    assert (mapM (nodes fuel h1) (before ++ after) = Some (lsb ++ lsa))
      as ->; [|done].
    apply mapM_Some. by apply (listing_transfer _ (heap s)).
  - intros c lc Hc Hne Hlc.
    assert (c ∈ before ++ after) as Hc'.
    { apply elem_of_app in Hc as [?|[?|?]%elem_of_cons];
        [apply elem_of_app; by left|done|apply elem_of_app; by right]. }
    destruct (listing_child _ _ _ _ _ Hrest Hc') as (lc0 & Hlc0 & Hin0).
    assert (lc0 = lc) as -> by congruence.
    assert (∀ q, q ∈ lc → q ∈ mjoin (lsb ++ lsa)) as Hsub.
    { intros q Hq. apply list_elem_of_join. by exists lc. }
    split_and!.
    + apply (nodes_shape _ _ _ _ _ Hlc). intros q Hq.
      by rewrite Hag by by apply Hsub.
    + intros HCl. by destruct (Hsep C (Hsub _ HCl)).
    + intros q Hq. by destruct (Hsep q (Hsub _ Hq)).
Qed.

(** X5: in a tree, removing two different children of the same container
    returns in either order, and both orders leave the same state. *)
Theorem removes_commute fuel s C children h1 h2 :
  heap s !! C = Some (CompoundGraphic children) →
  tree_at (S fuel) (heap s) C →
  h1 ∈ children → h2 ∈ children → h1 ≠ h2 →
  ∃ s', (remove fuel C h1 ;;; remove fuel C h2) s = Returned tt s'
    ∧ (remove fuel C h2 ;;; remove fuel C h1) s = Returned tt s'.
Proof.
  intros HC (l & Hl & Hnd) Hin1 Hin2 Hne.
  assert (∀ a b la lb, a ∈ children → b ∈ children → a ≠ b →
    nodes fuel (heap s) a = Some la → nodes fuel (heap s) b = Some lb →
    (remove fuel C a ;;; remove fuel C b) s
    = Returned tt
        (set_heap
           (delete_all lb
              (<[C := CompoundGraphic
                        (filter (fun c => c ≠ b)
                           (filter (fun c => c ≠ a) children))]>
                 (delete_all la
                    (<[C := CompoundGraphic
                              (filter (fun c => c ≠ a) children)]>
                       (heap s))))) s)
    ∧ (C ∉ la) ∧ (C ∉ lb)) as Hseq.
  { intros a b la lb Ha Hb Hab Hla Hlb.
    destruct (remove_in_tree _ _ _ _ _ _ HC Hl Hnd Ha)
      as (la' & ta & Hla' & HCa & Hrma & Hta & Hnda & Hkeep).
    assert (la' = la) as -> by congruence.
    destruct (Hkeep b lb Hb (not_eq_sym Hab) Hlb) as (Hlb1 & HCb & _).
    rewrite (bind_Returned _ _ _ _ _ Hrma).
    set (sa := set_heap _ s) in *.
    assert (heap sa !! C
            = Some (CompoundGraphic (filter (fun c => c ≠ a) children)))
      as HCa'.
    { simpl. rewrite lookup_delete_all, decide_False by done.
      by rewrite lookup_insert_eq. }
    assert (b ∈ filter (fun c => c ≠ a) children) as Hb'
      by (apply list_elem_of_filter; split; [by apply not_eq_sym|done]).
    destruct (remove_in_tree fuel sa C _ b ta HCa' Hta Hnda Hb')
      as (lb' & tb & Hlb' & _ & Hrmb & _).
    assert (lb' = lb) as -> by (simpl in Hlb'; congruence).
    by rewrite Hrmb. }
  destruct (nodes_inv _ _ _ _ _ HC Hl) as (ls & Hls & _).
  destruct (listing_child _ _ _ _ _ Hls Hin1) as (l1 & Hl1 & _).
  destruct (listing_child _ _ _ _ _ Hls Hin2) as (l2 & Hl2 & _).
  destruct (Hseq h1 h2 l1 l2 Hin1 Hin2 Hne Hl1 Hl2) as (H12 & HC1 & HC2).
  destruct (Hseq h2 h1 l2 l1 Hin2 Hin1 (not_eq_sym Hne) Hl2 Hl1)
    as (H21 & _ & _).
  eexists. split; [exact H12|]. rewrite H21. unfold set_heap. simpl.
  do 2 f_equal. apply map_eq. intros q.
  rewrite !lookup_delete_all, !lookup_insert, !lookup_delete_all,
    !lookup_insert.
  assert (filter (fun c => c ≠ h1) (filter (fun c => c ≠ h2) children)
          = filter (fun c => c ≠ h2) (filter (fun c => c ≠ h1) children))
    as ->.
  { rewrite !list_filter_filter. apply list_filter_iff. intros x. tauto. }
  destruct (decide (q ∈ l1)) as [Hq1|Hq1], (decide (q ∈ l2)) as [Hq2|Hq2],
    (decide (C = q)) as [<-|HCq]; try done.
Qed.

Lemma removes_commute_witness :
  let s := mkState (<[1%positive := CompoundGraphic [2; 3; 5]%positive]>
                      (<[2%positive := Dot 1 2]>
                         (<[3%positive := CompoundGraphic [4%positive]]>
                            (<[4%positive := Circle 5 5 3]>
                               (<[5%positive := Dot 7 8]> ∅))))) "" in
  ∃ s', (remove 2 1 5 ;;; remove 2 1 3) s = Returned tt s'
    ∧ (remove 2 1 3 ;;; remove 2 1 5) s = Returned tt s'.
Proof.
  intros s.
  apply (removes_commute 2 s 1%positive [2; 3; 5]%positive 5%positive
           3%positive).
  - reflexivity.
  - exists [1; 2; 3; 4; 5]%positive. split; [vm_compute; reflexivity|compute_done].
  - compute_done.
  - compute_done.
  - done.
Defined.

(** ** The tree shape is kept *)

Lemma add_keeps_tree fuel (h : gmap positive Graphic) C children n l ln :
  h !! C = Some (CompoundGraphic children) →
  nodes (S fuel) h C = Some l → NoDup l →
  nodes fuel h n = Some ln → NoDup ln →
  (∀ q, q ∈ ln → q ∉ l) →
  nodes (S fuel) (<[C := CompoundGraphic (children ++ [n])]> h) C
  = Some (l ++ ln)
  ∧ NoDup (l ++ ln).
Proof.
  intros HC Hl Hnd Hln Hndn Hdis.
  destruct (nodes_inv _ _ _ _ _ HC Hl) as (ls & Hls & ->).
  set (h' := <[C := CompoundGraphic (children ++ [n])]> h).
  assert (∀ q, q ∈ mjoin (ls ++ [ln]) → h' !! q = h !! q) as Hag.
  { intros q Hq. unfold h'. rewrite lookup_insert_ne; [done|]. intros <-.
    rewrite join_app in Hq. apply elem_of_app in Hq as [Hq|Hq].
    - apply NoDup_cons in Hnd as [HC' _]. done.
    - simpl in Hq. rewrite app_nil_r in Hq. apply (Hdis C Hq). left. }
  split.
  - rewrite (nodes_compound h' _ C (children ++ [n]))
      by (unfold h'; by rewrite lookup_insert_eq).
    assert (mapM (nodes fuel h') (children ++ [n]) = Some (ls ++ [ln])) as ->.
    { apply mapM_Some. apply (listing_transfer _ h); [|done].
      apply Forall2_app; [done|]. by repeat constructor. }
    simpl. rewrite join_app. simpl. by rewrite app_nil_r.
  - apply NoDup_app. split_and!; [done| |done].
    intros q Hq Hq'. by apply (Hdis q Hq').
Qed.

(** X11: the tree shape is an invariant of the member functions.  When the
    structure at a container C is a tree, it still is after [move] or
    [draw] on C, after [remove] on C with any handle, and after [add] on C
    of a tree that shares no object with the one at C. *)
Theorem tree_is_kept fuel s C children :
  heap s !! C = Some (CompoundGraphic children) →
  tree_at (S fuel) (heap s) C →
  (∀ x y, ∃ s', move (S fuel) C x y s = Returned tt s'
                ∧ tree_at (S fuel) (heap s') C)
  ∧ (∃ s', draw (S fuel) C s = Returned tt s'
           ∧ tree_at (S fuel) (heap s') C)
  ∧ (∀ h, ∃ s', remove fuel C h s = Returned tt s'
                ∧ tree_at (S fuel) (heap s') C)
  ∧ (∀ n, tree_at fuel (heap s) n →
          (∀ q, q = n ∨ under (heap s) n q →
                q ≠ C ∧ ¬ under (heap s) C q) →
          ∃ s', add C n s = Returned tt s'
                ∧ tree_at (S fuel) (heap s') C).
Proof.
  intros HC (l & Hl & Hnd). split_and!.
  - intros x y. eexists. split; [by apply move_listing|].
    exists l. split; [|done]. exact (nodes_place_all _ _ _ _ _ _ _ Hl).
  - eexists. split; [by apply draw_listing|]. by exists l.
  - intros h. destruct (decide (h ∈ children)) as [Hin|Hout].
    + destruct (remove_in_tree _ _ _ _ _ _ HC Hl Hnd Hin)
        as (lh & l1 & _ & _ & Hrm & Hl1 & Hnd1 & _).
      eexists. split; [exact Hrm|]. by exists l1.
    + exists s. split; [by eapply remove_absent|]. by exists l.
  - intros n (ln & Hln & Hndn) Hdis. eexists.
    split; [by apply add_container|].
    destruct (add_keeps_tree _ _ _ _ n _ _ HC Hl Hnd Hln Hndn) as [Hl' Hnd'].
    + intros q Hq Hql.
      destruct (Hdis q) as [HqC Hqu].
      { by apply (nodes_under _ _ _ _ Hln). }
      apply (nodes_under _ _ _ _ Hl) in Hql as [?|?]; done.
    + by exists (l ++ ln).
Qed.

Lemma tree_is_kept_witness :
  let s := mkState (<[1%positive := CompoundGraphic [2; 3]%positive]>
                      (<[2%positive := Dot 1 2]>
                         (<[3%positive := CompoundGraphic [4%positive]]>
                            (<[4%positive := Circle 5 5 3]>
                               (<[5%positive := CompoundGraphic [6%positive]]>
                                  (<[6%positive := Dot 7 8]> ∅)))))) "" in
  (∃ s', move 3 1 9 9 s = Returned tt s' ∧ tree_at 3 (heap s') 1)
  ∧ (∃ s', draw 3 1 s = Returned tt s' ∧ tree_at 3 (heap s') 1)
  ∧ (∃ s', remove 2 1 3 s = Returned tt s' ∧ tree_at 3 (heap s') 1)
  ∧ (∃ s', add 1 5 s = Returned tt s' ∧ tree_at 3 (heap s') 1).
Proof.
  intros s.
  destruct (tree_is_kept 2 s 1%positive [2; 3]%positive)
    as (Hmove & Hdraw & Hremove & Hadd).
  - reflexivity.
  - exists [1; 2; 3; 4]%positive. split; [vm_compute; reflexivity|compute_done].
  - split_and!; [apply Hmove|exact Hdraw|apply Hremove|apply Hadd].
    + exists [5; 6]%positive. split; [vm_compute; reflexivity|compute_done].
    + intros q Hq.
      assert (q ∈ [5; 6]%positive) as Hq56.
      { apply (nodes_under (heap s) 2 5%positive); [vm_compute; reflexivity|done]. }
      assert (q ∉ [1; 2; 3; 4]%positive) as Hq14.
      { intros Hq'.
        apply elem_of_cons in Hq56 as [->|Hq56];
          [|apply list_elem_of_singleton in Hq56 as ->];
          revert Hq'; compute_done. }
      split.
      * intros ->. apply Hq14. left.
      * apply (not_under_listing 3 _ _ [1; 2; 3; 4]%positive);
          [vm_compute; reflexivity|done].
Defined.
